(** * cenk/bitfield: a fixed-length packed-bit container

    A shallow embedding of [bitfield.go] and the properties of its
    specification.

    Data model.
    - [uint32] values are [Z] in [0, 2^32); every arithmetic step that Go
      performs on [uint32] is followed by [u32], the reduction modulo 2^32.
      [byte] values are [Z] in [0, 2^8), with [u8].
    - A Go slice is a window on a backing array. The only slices of the
      program start at offset 0, so a slice is the contents of its backing
      array together with its length ([slice]). [NewBytes] keeps the
      caller's array as the backing array of the container: both see the
      same bytes. Where it matters that two slices point to one array,
      arrays have addresses in a heap ([HNewBytes], [HSet], [HTest]).
    - [len] has type [int], which is 64 bits wide on the usual targets, so a
      slice can hold 2^32 bytes or more; [uint32(len(b))] truncates.
    - A panic aborts the call. Operations that write return the container
      as the panic left it, next to the outcome. *)

From Stdlib Require Import ZArith Lia String Ascii.
From stdpp Require Import base tactics list numbers.

Local Open Scope Z_scope.

(** ** Machine integers *)

Definition u32 (x : Z) : Z := x mod 2 ^ 32.
Definition u8 (x : Z) : Z := x mod 2 ^ 8.

Definition is_u32 (x : Z) : Prop := 0 <= x < 2 ^ 32.
Definition is_byte (x : Z) : Prop := 0 <= x < 2 ^ 8.

(** [^x] on a [byte]. *)
Definition not8 (x : Z) : Z := Z.lxor x 255.

(** ** Panics *)

Inductive panic : Set :=
| NotEnoughBytes          (* panic("not enough bytes in slice for specified length") *)
| IndexOutOfBound         (* panic("index out of bound"), raised by checkIndex *)
| RuntimeIndexOutOfRange. (* the run-time check of an index expression *)

Inductive result (A : Type) : Type :=
| Ok (a : A)
| Panic (p : panic).
Arguments Ok {A} a.
Arguments Panic {A} p.

(** ** Slices and the container *)

Record slice : Type := mkSlice {
  backing : list Z;  (* the bytes of the backing array, from the slice's start *)
  slen : nat         (* len(s) *)
}.

(** The elements [s[0] .. s[len(s)-1]]. *)
Definition elems (s : slice) : list Z := take (slen s) (backing s).

(** [s[k]] as an operand: [None] when the run-time check fails. *)
Definition index (s : slice) (k : Z) : option Z :=
  if (0 <=? k) && (k <? Z.of_nat (slen s)) then backing s !! Z.to_nat k else None.

(** [s[k] = v] once the check of [index] has passed. *)
Definition store (s : slice) (k : Z) (v : Z) : slice :=
  mkSlice (<[Z.to_nat k := v]> (backing s)) (slen s).

(** type Bitfield struct { b []byte; length uint32 } *)
Record Bitfield : Type := mkBitfield {
  bf_b : slice;
  bf_length : Z
}.

(** func divMod32(a, b uint32) (uint32, uint32) { return a / b, a % b }
    Every call passes the constant 8 for [b]. *)
Definition divMod32 (a b : Z) : Z * Z := (a / b, a mod b).

(** func calcSize(length uint32) (nBytes, nLastBits uint32) *)
Definition calcSize (length : Z) : Z * Z :=
  let '(nBytes, nLastBits) := divMod32 length 8 in
  let lastByteIncomplete := negb (nLastBits =? 0) in
  if lastByteIncomplete then (u32 (nBytes + 1), nLastBits) else (nBytes, nLastBits).

(** func New(length uint32) *Bitfield
    return &Bitfield{make([]byte, (length+7)/8), length} *)
Definition New (length : Z) : Bitfield :=
  let n := Z.to_nat (u32 (length + 7) / 8) in
  mkBitfield (mkSlice (replicate n 0) n) length.

(** func NewBytes(b []byte, length uint32) *Bitfield
    The first component is the caller's slice [b] after the call. *)
Definition NewBytes (b : list Z) (length : Z) : list Z * result Bitfield :=
  let '(nBytes, nLastBits) := calcSize length in
  let len_b := Z.of_nat (List.length b) in
  if u32 len_b <? nBytes then (b, Panic NotEnoughBytes)
  else if negb (nLastBits =? 0) then
    match index (mkSlice b (List.length b)) (len_b - 1) with
    | None => (b, Panic RuntimeIndexOutOfRange)
    | Some v =>
        let b' := <[Z.to_nat (len_b - 1) :=
                     Z.land v (not8 (u8 (Z.shiftr 255 nLastBits)))]> b in
        (b', Ok (mkBitfield (mkSlice b' (Z.to_nat nBytes)) length))
    end
  else (b, Ok (mkBitfield (mkSlice b (Z.to_nat nBytes)) length)).

(** func (b *Bitfield) Bytes() []byte { return b.b } *)
Definition Bytes (bf : Bitfield) : list Z := elems (bf_b bf).

(** func (b *Bitfield) Len() uint32 { return b.length } *)
Definition Len (bf : Bitfield) : Z := bf_length bf.

(** func (b *Bitfield) checkIndex(i uint32) *)
Definition checkIndex (bf : Bitfield) (i : Z) : result unit :=
  if Len bf <=? i then Panic IndexOutOfBound else Ok tt.

(** func (b *Bitfield) Set(i uint32) *)
Definition Set_ (bf : Bitfield) (i : Z) : Bitfield * result unit :=
  match checkIndex bf i with
  | Panic p => (bf, Panic p)
  | Ok _ =>
      let '(div, rem) := divMod32 i 8 in
      match index (bf_b bf) div with
      | None => (bf, Panic RuntimeIndexOutOfRange)
      | Some v =>
          (mkBitfield (store (bf_b bf) div (Z.lor v (u8 (Z.shiftl 1 (u32 (7 - rem))))))
                      (bf_length bf), Ok tt)
      end
  end.

(** func (b *Bitfield) Clear(i uint32) *)
Definition Clear (bf : Bitfield) (i : Z) : Bitfield * result unit :=
  match checkIndex bf i with
  | Panic p => (bf, Panic p)
  | Ok _ =>
      let '(div, rem) := divMod32 i 8 in
      match index (bf_b bf) div with
      | None => (bf, Panic RuntimeIndexOutOfRange)
      | Some v =>
          (mkBitfield (store (bf_b bf) div
                         (Z.land v (not8 (u8 (Z.shiftl 1 (u32 (7 - rem)))))))
                      (bf_length bf), Ok tt)
      end
  end.

(** func (b *Bitfield) SetTo(i uint32, value bool) *)
Definition SetTo (bf : Bitfield) (i : Z) (value : bool) : Bitfield * result unit :=
  match checkIndex bf i with
  | Panic p => (bf, Panic p)
  | Ok _ => if value then Set_ bf i else Clear bf i
  end.

(** func (b *Bitfield) Test(i uint32) bool *)
Definition Test (bf : Bitfield) (i : Z) : result bool :=
  match checkIndex bf i with
  | Panic p => Panic p
  | Ok _ =>
      let '(div, rem) := divMod32 i 8 in
      match index (bf_b bf) div with
      | None => Panic RuntimeIndexOutOfRange
      | Some v => Ok (0 <? Z.land v (u8 (Z.shiftl 1 (u32 (7 - rem)))))
      end
  end.

(** The loop of [FirstSet]: [for i := start; i < b.length; i++].
    [None] stands for a loop that has not finished within [fuel] rounds. *)
Fixpoint FirstSet_loop (bf : Bitfield) (fuel : nat) (i : Z)
  : option (result (Z * bool)) :=
  if i <? bf_length bf then
    match fuel with
    | O => None
    | S fuel' =>
        match Test bf i with
        | Panic p => Some (Panic p)
        | Ok true => Some (Ok (i, true))
        | Ok false => FirstSet_loop bf fuel' (u32 (i + 1))
        end
    end
  else Some (Ok (0, false)).

(** The loop of [FirstClear]. *)
Fixpoint FirstClear_loop (bf : Bitfield) (fuel : nat) (i : Z)
  : option (result (Z * bool)) :=
  if i <? bf_length bf then
    match fuel with
    | O => None
    | S fuel' =>
        match Test bf i with
        | Panic p => Some (Panic p)
        | Ok false => Some (Ok (i, true))
        | Ok true => FirstClear_loop bf fuel' (u32 (i + 1))
        end
    end
  else Some (Ok (0, false)).

(** func (b *Bitfield) FirstSet(start uint32) (uint32, bool)
    The loop is given as many rounds as there are indices from [start] up
    to the length. *)
Definition FirstSet (bf : Bitfield) (start : Z) : option (result (Z * bool)) :=
  FirstSet_loop bf (Z.to_nat (bf_length bf - start)) start.

(** func (b *Bitfield) FirstClear(start uint32) (uint32, bool) *)
Definition FirstClear (bf : Bitfield) (start : Z) : option (result (Z * bool)) :=
  FirstClear_loop bf (Z.to_nat (bf_length bf - start)) start.

(** func (b *Bitfield) ClearAll()
    for i := range b.b { b.b[i] = 0 } *)
Definition ClearAll (bf : Bitfield) : Bitfield :=
  mkBitfield
    (foldl (fun s i => store s (Z.of_nat i) 0) (bf_b bf) (seq 0 (slen (bf_b bf))))
    (bf_length bf).

(** var countCache = [256]byte{...} *)
Definition countCache : list Z :=
  [ 0; 1; 1; 2; 1; 2; 2; 3; 1; 2; 2; 3; 2; 3; 3; 4;
    1; 2; 2; 3; 2; 3; 3; 4; 2; 3; 3; 4; 3; 4; 4; 5;
    1; 2; 2; 3; 2; 3; 3; 4; 2; 3; 3; 4; 3; 4; 4; 5;
    2; 3; 3; 4; 3; 4; 4; 5; 3; 4; 4; 5; 4; 5; 5; 6;
    1; 2; 2; 3; 2; 3; 3; 4; 2; 3; 3; 4; 3; 4; 4; 5;
    2; 3; 3; 4; 3; 4; 4; 5; 3; 4; 4; 5; 4; 5; 5; 6;
    2; 3; 3; 4; 3; 4; 4; 5; 3; 4; 4; 5; 4; 5; 5; 6;
    3; 4; 4; 5; 4; 5; 5; 6; 4; 5; 5; 6; 5; 6; 6; 7;
    1; 2; 2; 3; 2; 3; 3; 4; 2; 3; 3; 4; 3; 4; 4; 5;
    2; 3; 3; 4; 3; 4; 4; 5; 3; 4; 4; 5; 4; 5; 5; 6;
    2; 3; 3; 4; 3; 4; 4; 5; 3; 4; 4; 5; 4; 5; 5; 6;
    3; 4; 4; 5; 4; 5; 5; 6; 4; 5; 5; 6; 5; 6; 6; 7;
    2; 3; 3; 4; 3; 4; 4; 5; 3; 4; 4; 5; 4; 5; 5; 6;
    3; 4; 4; 5; 4; 5; 5; 6; 4; 5; 5; 6; 5; 6; 6; 7;
    3; 4; 4; 5; 4; 5; 5; 6; 4; 5; 5; 6; 5; 6; 6; 7;
    4; 5; 5; 6; 5; 6; 6; 7; 5; 6; 6; 7; 6; 7; 7; 8 ].

(** func (b *Bitfield) Count() uint32
    for _, v := range b.b { total += uint32(countCache[v]) } *)
Definition Count (bf : Bitfield) : Z :=
  foldl (fun total v => u32 (total + nth (Z.to_nat v) countCache 0)) 0
        (elems (bf_b bf)).

(** func (b *Bitfield) All() bool { return b.Count() == b.length } *)
Definition All (bf : Bitfield) : bool := Count bf =? bf_length bf.

(** [hex.EncodeToString] of the Go standard library: two digits of
    "0123456789abcdef" per byte, the high nibble first. *)
Definition hextable : list ascii := list_ascii_of_string "0123456789abcdef".

Definition hexDigit (n : Z) : ascii := nth (Z.to_nat n) hextable "0"%char.

Fixpoint EncodeToString (src : list Z) : string :=
  match src with
  | [] => EmptyString
  | v :: rest =>
      String (hexDigit (Z.shiftr v 4))
        (String (hexDigit (Z.land v 15)) (EncodeToString rest))
  end.

(** func (b *Bitfield) Hex() string { return hex.EncodeToString(b.b) } *)
Definition Hex (bf : Bitfield) : string := EncodeToString (elems (bf_b bf)).

(** ** Sequences of calls *)

Inductive call : Set :=
| CallSet (i : Z)
| CallClear (i : Z)
| CallSetTo (i : Z) (value : bool).

Definition call_index (c : call) : Z :=
  match c with CallSet i | CallClear i | CallSetTo i _ => i end.

Definition do_call (bf : Bitfield) (c : call) : Bitfield * result unit :=
  match c with
  | CallSet i => Set_ bf i
  | CallClear i => Clear bf i
  | CallSetTo i v => SetTo bf i v
  end.

(** The calls are made in order; the first panic ends the run. *)
Fixpoint run (bf : Bitfield) (cs : list call) : Bitfield * result unit :=
  match cs with
  | [] => (bf, Ok tt)
  | c :: cs' =>
      match do_call bf c with
      | (bf', Ok _) => run bf' cs'
      | (bf', Panic p) => (bf', Panic p)
      end
  end.

(** ** Vocabulary of the specification *)

(** ceil(L / 8), over the integers. *)
Definition ceil8 (L : Z) : Z := (L + 7) / 8.

(** Invariant I1: the container's slice has ceil(bitLength / 8) bytes (all
    of them inside the backing array). *)
Definition I1 (bf : Bitfield) : Prop :=
  Z.of_nat (slen (bf_b bf)) = ceil8 (bf_length bf) /\
  (slen (bf_b bf) <= List.length (backing (bf_b bf)))%nat.

(** The low-order [n] bits of [v] are 0. *)
Definition low_bits_zero (n v : Z) : Prop :=
  forall k, 0 <= k < n -> Z.testbit v k = false.

(** Invariant I2: when the bit length is not a multiple of 8, the low-order
    (8 - bitLength mod 8) bits of the last byte of the buffer are 0. *)
Definition I2 (bf : Bitfield) : Prop :=
  bf_length bf mod 8 <> 0 ->
  exists v, list.last (Bytes bf) = Some v /\ low_bits_zero (8 - bf_length bf mod 8) v.

(** [Test] answers [true]. *)
Definition tests_true (bf : Bitfield) (i : Z) : bool :=
  match Test bf i with Ok true => true | _ => false end.

(** The number of indices i in [0, Len) for which [Test i] is true. *)
Definition count_tests (bf : Bitfield) : Z :=
  Z.of_nat (List.length
    (List.filter (fun i : nat => tests_true bf (Z.of_nat i))
                 (seq 0 (Z.to_nat (Len bf))))).

(** The number of bits set in a byte. *)
Definition popcount8 (v : Z) : Z :=
  Z.b2z (Z.testbit v 7) + Z.b2z (Z.testbit v 6) + Z.b2z (Z.testbit v 5) +
  Z.b2z (Z.testbit v 4) + Z.b2z (Z.testbit v 3) + Z.b2z (Z.testbit v 2) +
  Z.b2z (Z.testbit v 1) + Z.b2z (Z.testbit v 0).

(** Bit [i] of a byte sequence, the most significant bit of a byte first. *)
Definition bit_at (l : list Z) (i : nat) : bool :=
  match l !! (i / 8)%nat with
  | Some v => Z.testbit v (7 - Z.of_nat (i mod 8))
  | None => false
  end.

(** The sum of the bit counts of the bytes of a sequence. *)
Definition popsum (l : list Z) : Z := foldr (fun v acc => popcount8 v + acc) 0 l.

(** A well-formed container: I1 and I2 hold, the length is a [uint32] and
    the buffer holds bytes. *)
Definition wf (bf : Bitfield) : Prop :=
  I1 bf /\ is_u32 (bf_length bf) /\ Forall is_byte (Bytes bf) /\ I2 bf.

(** What a scan from [start] for a bit of value [want] must answer: the
    smallest index at or after [start] whose bit is [want], or not-found
    when there is none below the length. *)
Definition scan_spec (bf : Bitfield) (want : bool) (start : Z)
    (r : option (result (Z * bool))) : Prop :=
  (exists i, r = Some (Ok (i, true)) /\ start <= i < Len bf /\
             Test bf i = Ok want /\
             forall j, start <= j < i -> Test bf j = Ok (negb want))
  \/
  (r = Some (Ok (0, false)) /\
   forall j, start <= j < Len bf -> Test bf j = Ok (negb want)).

(** The byte that a call at a valid index writes in place of the byte [v]
    of its index: [v | mask] for [Set], [v & ^mask] for [Clear], with
    [mask = 1 << (7 - i % 8)]. *)
Definition call_byte (c : call) (v : Z) : Z :=
  match c with
  | CallSet i | CallSetTo i true => Z.lor v (2 ^ (7 - i mod 8))
  | CallClear i | CallSetTo i false => Z.land v (not8 (2 ^ (7 - i mod 8)))
  end.

(** ** Arrays in a heap

    To speak of two slices on one array, arrays get addresses. A heap is
    the list of the arrays allocated so far; a slice value is the address
    of its array and its length (every slice of the program starts at
    offset 0). The functions below are the ones above, run on the array
    that the slice points to and written back to the same address. *)

Abbreviation heap := (list (list Z)).

Record ref_slice : Type := mkRef {
  base : nat;   (* the address of the array *)
  rlen : nat    (* len(s) *)
}.

(** A [*Bitfield] in the heap: the slice [b] and [length]. *)
Record HBitfield : Type := mkHBitfield {
  hbf_b : ref_slice;
  hbf_length : Z
}.

Definition array_at (h : heap) (a : nat) : list Z := default [] (h !! a).

(** The slice as the code sees it: the array it points to, and its length. *)
Definition deref (h : heap) (s : ref_slice) : slice :=
  mkSlice (array_at h (base s)) (rlen s).

Definition view (h : heap) (bf : HBitfield) : Bitfield :=
  mkBitfield (deref h (hbf_b bf)) (hbf_length bf).

(** [NewBytes(b, length)]: the elements of [b] are read from its array,
    the masked byte is written to that array, and the container's slice
    [b[:nBytes]] is a slice of the same array. *)
Definition HNewBytes (h : heap) (b : ref_slice) (length : Z)
  : heap * result HBitfield :=
  let arr := array_at h (base b) in
  let '(es, r) := NewBytes (take (rlen b) arr) length in
  let h' := <[base b := es ++ drop (rlen b) arr]> h in
  match r with
  | Ok bf => (h', Ok (mkHBitfield (mkRef (base b) (slen (bf_b bf))) (bf_length bf)))
  | Panic p => (h', Panic p)
  end.

(** [New(length)]: [make] allocates a new array. *)
Definition HNew (h : heap) (length : Z) : heap * HBitfield :=
  let bf := New length in
  (h ++ [backing (bf_b bf)],
   mkHBitfield (mkRef (List.length h) (slen (bf_b bf))) (bf_length bf)).

(** [Set], [Clear] and [Test] through the pointer. *)
Definition HSet (h : heap) (bf : HBitfield) (i : Z) : heap * result unit :=
  let '(bf', r) := Set_ (view h bf) i in
  (<[base (hbf_b bf) := backing (bf_b bf')]> h, r).

Definition HClear (h : heap) (bf : HBitfield) (i : Z) : heap * result unit :=
  let '(bf', r) := Clear (view h bf) i in
  (<[base (hbf_b bf) := backing (bf_b bf')]> h, r).

Definition HTest (h : heap) (bf : HBitfield) (i : Z) : result bool :=
  Test (view h bf) i.

(** ** Small runs of the code *)

Example New_20 : Bytes (New 20) = [0; 0; 0].
Proof. reflexivity. Qed.

Example calcSize_20 : calcSize 20 = (3, 4).
Proof. reflexivity. Qed.

Example Set_then_Test :
  Test (fst (Set_ (New 20) 19)) 19 = Ok true /\
  Test (fst (Set_ (New 20) 19)) 18 = Ok false /\
  Test (New 20) 20 = Panic IndexOutOfBound.
Proof. repeat split; reflexivity. Qed.

Example NewBytes_exact :
  NewBytes [255; 255] 12 =
  ([255; 240], Ok (mkBitfield (mkSlice [255; 240] 2) 12)).
Proof. reflexivity. Qed.

Example FirstSet_run :
  FirstSet (fst (Set_ (New 20) 7)) 1 = Some (Ok (7, true)).
Proof. reflexivity. Qed.

(** ** Bits of a byte *)

Section Bits.

Lemma u32_small x : is_u32 x -> u32 x = x.
Proof. unfold is_u32, u32. intros H. apply Z.mod_small. exact H. Qed.

Lemma mod8_range (i : Z) : 0 <= i mod 8 < 8.
Proof. apply Z.mod_pos_bound. lia. Qed.

(** The mask [1 << (7 - mod)] of [Set], [Clear] and [Test]. *)
Lemma mask_eq (m : Z) :
  0 <= m < 8 -> u8 (Z.shiftl 1 (u32 (7 - m))) = 2 ^ (7 - m).
Proof.
  intros Hm. unfold u32, u8.
  rewrite (Z.mod_small (7 - m)) by lia.
  rewrite Z.shiftl_1_l.
  apply Z.mod_small. split; [apply Z.pow_nonneg; lia|].
  apply Z.pow_lt_mono_r; lia.
Qed.

Lemma land_pow2 (v k : Z) :
  0 <= k -> Z.land v (2 ^ k) = if Z.testbit v k then 2 ^ k else 0.
Proof.
  intros Hk. apply Z.bits_inj'. intros n Hn.
  rewrite Z.land_spec, Z.pow2_bits_eqb by lia.
  destruct (Z.eqb_spec k n) as [->|Hne].
  - destruct (Z.testbit v n); simpl.
    + rewrite Z.pow2_bits_true; lia.
    + rewrite Z.bits_0. reflexivity.
  - rewrite andb_false_r.
    destruct (Z.testbit v k).
    + rewrite Z.pow2_bits_false; lia.
    + rewrite Z.bits_0. reflexivity.
Qed.

Lemma land_pow2_pos (v k : Z) :
  0 <= k -> (0 <? Z.land v (2 ^ k)) = Z.testbit v k.
Proof.
  intros Hk. rewrite land_pow2 by lia.
  destruct (Z.testbit v k).
  - apply Z.ltb_lt. apply Z.pow_pos_nonneg; lia.
  - reflexivity.
Qed.

Lemma testbit_lor_pow2 (v k j : Z) :
  0 <= k -> 0 <= j ->
  Z.testbit (Z.lor v (2 ^ k)) j = Z.testbit v j || (k =? j).
Proof.
  intros Hk Hj. rewrite Z.lor_spec, Z.pow2_bits_eqb by lia. reflexivity.
Qed.

Lemma testbit_255 (j : Z) : 0 <= j -> Z.testbit 255 j = (j <? 8).
Proof.
  intros Hj. change 255 with (Z.ones 8).
  destruct (Z.ltb_spec j 8).
  - apply Z.ones_spec_low. lia.
  - apply Z.ones_spec_high. lia.
Qed.

Lemma testbit_not8 (x j : Z) :
  0 <= j -> Z.testbit (not8 x) j = xorb (Z.testbit x j) (j <? 8).
Proof.
  intros Hj. unfold not8. rewrite Z.lxor_spec, testbit_255 by lia. reflexivity.
Qed.

Lemma testbit_clear_pow2 (v k j : Z) :
  0 <= k -> 0 <= j < 8 ->
  Z.testbit (Z.land v (not8 (2 ^ k))) j = Z.testbit v j && negb (k =? j).
Proof.
  intros Hk Hj. rewrite Z.land_spec, testbit_not8, Z.pow2_bits_eqb by lia.
  replace (j <? 8) with true by (symmetry; apply Z.ltb_lt; lia).
  rewrite xorb_true_r. reflexivity.
Qed.

Lemma is_byte_testbit_high (v j : Z) :
  is_byte v -> 8 <= j -> Z.testbit v j = false.
Proof.
  intros Hv Hj. unfold is_byte in Hv.
  rewrite <- (Z.mod_small v (2 ^ 8)) by exact Hv.
  apply Z.mod_pow2_bits_high. lia.
Qed.

Lemma is_byte_of_bits (v : Z) :
  0 <= v -> (forall j, 8 <= j -> Z.testbit v j = false) -> is_byte v.
Proof.
  intros Hv Hhi. unfold is_byte. split; [exact Hv|].
  destruct (Z.ltb_spec v (2 ^ 8)) as [|Hge]; [assumption|exfalso].
  assert (Hpos : 0 < v) by lia.
  pose proof (Z.bit_log2 v Hpos) as Hbit.
  assert (8 <= Z.log2 v) by (apply Z.log2_le_pow2; lia).
  rewrite Hhi in Hbit by lia. discriminate.
Qed.

Lemma is_byte_lor_pow2 (v k : Z) :
  is_byte v -> 0 <= k < 8 -> is_byte (Z.lor v (2 ^ k)).
Proof.
  intros Hv Hk. apply is_byte_of_bits.
  - apply Z.lor_nonneg. split; [apply Hv|]. apply Z.pow_nonneg. lia.
  - intros j Hj. rewrite testbit_lor_pow2 by lia.
    rewrite (is_byte_testbit_high v j Hv Hj).
    destruct (Z.eqb_spec k j); [lia|reflexivity].
Qed.

Lemma is_byte_land (v x : Z) : is_byte v -> is_byte (Z.land v x).
Proof.
  intros Hv. apply is_byte_of_bits.
  - apply Z.land_nonneg. left. apply Hv.
  - intros j Hj. rewrite Z.land_spec, (is_byte_testbit_high v j Hv Hj).
    reflexivity.
Qed.

End Bits.

(** ** Reading and writing one byte of a slice *)

Section Access.

Implicit Types (s : slice) (bf : Bitfield).

Lemma index_Some s k v :
  index s k = Some v ->
  0 <= k < Z.of_nat (slen s) /\ backing s !! Z.to_nat k = Some v.
Proof.
  unfold index. destruct (Z.leb_spec 0 k), (Z.ltb_spec k (Z.of_nat (slen s)));
    simpl; intros Hv; try discriminate. split; [lia|exact Hv].
Qed.

Lemma index_in_range s k :
  0 <= k < Z.of_nat (slen s) -> (slen s <= length (backing s))%nat ->
  exists v, index s k = Some v.
Proof.
  intros Hk Hlen. unfold index.
  replace (0 <=? k) with true by (symmetry; apply Z.leb_le; lia).
  replace (k <? Z.of_nat (slen s)) with true by (symmetry; apply Z.ltb_lt; lia).
  simpl. apply lookup_lt_is_Some_2. lia.
Qed.

Lemma index_out_of_range s k :
  Z.of_nat (slen s) <= k -> index s k = None.
Proof.
  intros Hk. unfold index.
  replace (k <? Z.of_nat (slen s)) with false by (symmetry; apply Z.ltb_ge; lia).
  rewrite andb_false_r. reflexivity.
Qed.

Lemma index_store_eq s k v w :
  index s k = Some v -> index (store s k w) k = Some w.
Proof.
  intros H. destruct (index_Some _ _ _ H) as [Hk Hl].
  unfold index, store. simpl.
  replace (0 <=? k) with true by (symmetry; apply Z.leb_le; lia).
  replace (k <? Z.of_nat (slen s)) with true by (symmetry; apply Z.ltb_lt; lia).
  simpl. apply list_lookup_insert_eq. eapply lookup_lt_Some. exact Hl.
Qed.

Lemma index_store_ne s k j w :
  0 <= k -> 0 <= j -> k <> j -> index (store s k w) j = index s j.
Proof.
  intros Hk Hj Hne. unfold index, store. simpl.
  destruct ((0 <=? j) && (j <? Z.of_nat (slen s))); [|reflexivity].
  apply list_lookup_insert_ne. lia.
Qed.

Lemma index_elems s k :
  0 <= k -> index s k = elems s !! Z.to_nat k.
Proof.
  intros Hk. unfold index, elems.
  replace (0 <=? k) with true by (symmetry; apply Z.leb_le; lia). simpl.
  destruct (Z.ltb_spec k (Z.of_nat (slen s))).
  - rewrite lookup_take_lt by lia. reflexivity.
  - symmetry. apply lookup_ge_None. rewrite length_take. lia.
Qed.

Lemma elems_store s k w :
  elems (store s k w) = <[Z.to_nat k := w]> (elems s).
Proof.
  unfold elems, store. simpl.
  destruct (Nat.lt_ge_cases (Z.to_nat k) (slen s)).
  - rewrite take_insert_lt by lia. reflexivity.
  - rewrite take_insert_ge by lia.
    symmetry. apply list_insert_ge. rewrite length_take. lia.
Qed.

(** What [Test], [Set] and [Clear] do at an index inside the length. *)
Lemma Test_in bf i :
  0 <= i < Len bf ->
  Test bf i =
    match index (bf_b bf) (i / 8) with
    | None => Panic RuntimeIndexOutOfRange
    | Some v => Ok (Z.testbit v (7 - i mod 8))
    end.
Proof.
  intros Hi. unfold Test, checkIndex.
  replace (Len bf <=? i) with false by (symmetry; apply Z.leb_gt; lia).
  unfold divMod32. rewrite mask_eq by apply mod8_range.
  destruct (index (bf_b bf) (i / 8)); [|reflexivity].
  rewrite land_pow2_pos; [reflexivity|]. pose proof (mod8_range i). lia.
Qed.

Lemma Set_in bf i :
  0 <= i < Len bf ->
  Set_ bf i =
    match index (bf_b bf) (i / 8) with
    | None => (bf, Panic RuntimeIndexOutOfRange)
    | Some v =>
        (mkBitfield (store (bf_b bf) (i / 8) (Z.lor v (2 ^ (7 - i mod 8))))
                    (bf_length bf), Ok tt)
    end.
Proof.
  intros Hi. unfold Set_, checkIndex.
  replace (Len bf <=? i) with false by (symmetry; apply Z.leb_gt; lia).
  unfold divMod32. rewrite mask_eq by apply mod8_range. reflexivity.
Qed.

Lemma Clear_in bf i :
  0 <= i < Len bf ->
  Clear bf i =
    match index (bf_b bf) (i / 8) with
    | None => (bf, Panic RuntimeIndexOutOfRange)
    | Some v =>
        (mkBitfield (store (bf_b bf) (i / 8) (Z.land v (not8 (2 ^ (7 - i mod 8)))))
                    (bf_length bf), Ok tt)
    end.
Proof.
  intros Hi. unfold Clear, checkIndex.
  replace (Len bf <=? i) with false by (symmetry; apply Z.leb_gt; lia).
  unfold divMod32. rewrite mask_eq by apply mod8_range. reflexivity.
Qed.

Lemma SetTo_in bf i value :
  0 <= i < Len bf ->
  SetTo bf i value = if value then Set_ bf i else Clear bf i.
Proof.
  intros Hi. unfold SetTo, checkIndex.
  replace (Len bf <=? i) with false by (symmetry; apply Z.leb_gt; lia).
  reflexivity.
Qed.

(** Under I1 the byte of every index inside the length exists. *)
Lemma I1_index bf i :
  I1 bf -> 0 <= i < Len bf -> exists v, index (bf_b bf) (i / 8) = Some v.
Proof.
  intros [Hn Hle] Hi. apply index_in_range; [|exact Hle].
  rewrite Hn. unfold ceil8, Len in *.
  split; [apply Z.div_pos; lia|].
  apply Z.div_lt_upper_bound; [lia|].
  pose proof (Z.mul_div_le (bf_length bf + 7) 8).
  pose proof (Z.mod_pos_bound (bf_length bf + 7) 8).
  pose proof (Z.div_mod (bf_length bf + 7) 8). lia.
Qed.

End Access.

(** ** The effect of one call on every bit *)

Section Effects.

Implicit Types (bf : Bitfield).

Lemma same_byte_eqb (i j : Z) :
  i / 8 = j / 8 -> (7 - i mod 8 =? 7 - j mod 8) = (i =? j).
Proof.
  intros Hd. pose proof (Z.div_mod i 8). pose proof (Z.div_mod j 8).
  destruct (Z.eqb_spec i j), (Z.eqb_spec (7 - i mod 8) (7 - j mod 8));
    try reflexivity; lia.
Qed.

Lemma other_byte_neqb (i j : Z) : i / 8 <> j / 8 -> (i =? j) = false.
Proof. intros Hd. apply Z.eqb_neq. intros ->. apply Hd. reflexivity. Qed.

Lemma div8_nonneg (i : Z) : 0 <= i -> 0 <= i / 8.
Proof. intros. apply Z.div_pos; lia. Qed.

Lemma Len_Set bf i : Len (fst (Set_ bf i)) = Len bf.
Proof.
  unfold Set_. destruct (checkIndex bf i); [|reflexivity].
  destruct (divMod32 i 8). destruct (index (bf_b bf) z); reflexivity.
Qed.

Lemma Len_Clear bf i : Len (fst (Clear bf i)) = Len bf.
Proof.
  unfold Clear. destruct (checkIndex bf i); [|reflexivity].
  destruct (divMod32 i 8). destruct (index (bf_b bf) z); reflexivity.
Qed.

Lemma slen_Set bf i : slen (bf_b (fst (Set_ bf i))) = slen (bf_b bf).
Proof.
  unfold Set_. destruct (checkIndex bf i); [|reflexivity].
  destruct (divMod32 i 8). destruct (index (bf_b bf) z); reflexivity.
Qed.

Lemma slen_Clear bf i : slen (bf_b (fst (Clear bf i))) = slen (bf_b bf).
Proof.
  unfold Clear. destruct (checkIndex bf i); [|reflexivity].
  destruct (divMod32 i 8). destruct (index (bf_b bf) z); reflexivity.
Qed.

Lemma backing_length_Set bf i :
  length (backing (bf_b (fst (Set_ bf i)))) = length (backing (bf_b bf)).
Proof.
  unfold Set_. destruct (checkIndex bf i); [|reflexivity].
  destruct (divMod32 i 8). destruct (index (bf_b bf) z); [|reflexivity].
  simpl. apply length_insert.
Qed.

Lemma backing_length_Clear bf i :
  length (backing (bf_b (fst (Clear bf i)))) = length (backing (bf_b bf)).
Proof.
  unfold Clear. destruct (checkIndex bf i); [|reflexivity].
  destruct (divMod32 i 8). destruct (index (bf_b bf) z); [|reflexivity].
  simpl. apply length_insert.
Qed.

(** [Set i] turns bit [i] on and leaves every other answer of [Test] as
    it was. *)
Lemma Test_Set bf i j :
  0 <= i < Len bf -> 0 <= j < Len bf ->
  Test (fst (Set_ bf i)) j =
    match Test bf j with
    | Ok t => Ok (t || (i =? j))
    | Panic p => Panic p
    end.
Proof.
  intros Hi Hj.
  rewrite (Test_in (fst (Set_ bf i)) j) by (rewrite Len_Set; exact Hj).
  rewrite (Test_in bf j Hj), (Set_in bf i Hi).
  destruct (index (bf_b bf) (i / 8)) as [v|] eqn:Hv; simpl.
  - destruct (Z.eq_dec (i / 8) (j / 8)) as [Heq|Hne].
    + rewrite <- Heq, (index_store_eq _ _ _ _ Hv), Hv.
      pose proof (mod8_range i). pose proof (mod8_range j).
      rewrite testbit_lor_pow2 by lia.
      rewrite (same_byte_eqb i j Heq). reflexivity.
    + rewrite index_store_ne by (auto using div8_nonneg with lia).
      rewrite (other_byte_neqb i j Hne).
      destruct (index (bf_b bf) (j / 8)); [rewrite orb_false_r|]; reflexivity.
  - destruct (Z.eqb_spec i j) as [->|_].
    + rewrite Hv. reflexivity.
    + destruct (index (bf_b bf) (j / 8)); [rewrite orb_false_r|]; reflexivity.
Qed.

(** [Clear i] turns bit [i] off and leaves every other answer of [Test]
    as it was. *)
Lemma Test_Clear bf i j :
  0 <= i < Len bf -> 0 <= j < Len bf ->
  Test (fst (Clear bf i)) j =
    match Test bf j with
    | Ok t => Ok (t && negb (i =? j))
    | Panic p => Panic p
    end.
Proof.
  intros Hi Hj.
  rewrite (Test_in (fst (Clear bf i)) j) by (rewrite Len_Clear; exact Hj).
  rewrite (Test_in bf j Hj), (Clear_in bf i Hi).
  destruct (index (bf_b bf) (i / 8)) as [v|] eqn:Hv; simpl.
  - destruct (Z.eq_dec (i / 8) (j / 8)) as [Heq|Hne].
    + rewrite <- Heq, (index_store_eq _ _ _ _ Hv), Hv.
      pose proof (mod8_range i). pose proof (mod8_range j).
      rewrite testbit_clear_pow2 by lia.
      rewrite (same_byte_eqb i j Heq). reflexivity.
    + rewrite index_store_ne by (auto using div8_nonneg with lia).
      rewrite (other_byte_neqb i j Hne).
      destruct (index (bf_b bf) (j / 8)); [rewrite andb_true_r|]; reflexivity.
  - destruct (Z.eqb_spec i j) as [->|_].
    + rewrite Hv. reflexivity.
    + destruct (index (bf_b bf) (j / 8)); [rewrite andb_true_r|]; reflexivity.
Qed.

(** Under I1 a call at an index inside the length does not panic. *)
Lemma Test_ok bf i :
  I1 bf -> 0 <= i < Len bf -> exists t, Test bf i = Ok t.
Proof.
  intros HI Hi. destruct (I1_index bf i HI Hi) as [v Hv].
  rewrite Test_in, Hv by exact Hi. eauto.
Qed.

Lemma Set_ok bf i : I1 bf -> 0 <= i < Len bf -> snd (Set_ bf i) = Ok tt.
Proof.
  intros HI Hi. destruct (I1_index bf i HI Hi) as [v Hv].
  rewrite Set_in, Hv by exact Hi. reflexivity.
Qed.

Lemma Clear_ok bf i : I1 bf -> 0 <= i < Len bf -> snd (Clear bf i) = Ok tt.
Proof.
  intros HI Hi. destruct (I1_index bf i HI Hi) as [v Hv].
  rewrite Clear_in, Hv by exact Hi. reflexivity.
Qed.

Lemma SetTo_ok bf i value :
  I1 bf -> 0 <= i < Len bf -> snd (SetTo bf i value) = Ok tt.
Proof.
  intros HI Hi. rewrite SetTo_in by exact Hi.
  destruct value; [apply Set_ok|apply Clear_ok]; assumption.
Qed.

Lemma I1_Set bf i : I1 bf -> I1 (fst (Set_ bf i)).
Proof.
  unfold I1. intros [Hn Hle].
  rewrite slen_Set, backing_length_Set.
  pose proof (Len_Set bf i) as HL. unfold Len in HL. rewrite HL. auto.
Qed.

Lemma I1_Clear bf i : I1 bf -> I1 (fst (Clear bf i)).
Proof.
  unfold I1. intros [Hn Hle].
  rewrite slen_Clear, backing_length_Clear.
  pose proof (Len_Clear bf i) as HL. unfold Len in HL. rewrite HL. auto.
Qed.

End Effects.

(** ** Scans *)

Section Scans.

Variable bf : Bitfield.
Hypothesis HI1 : I1 bf.
Hypothesis Hlen : is_u32 (Len bf).

Lemma scan_spec_step (want : bool) (i : Z) r :
  Test bf i = Ok (negb want) ->
  scan_spec bf want (i + 1) r -> scan_spec bf want i r.
Proof.
  intros Hi [(k & Hr & Hk & Hwant & Hbelow)|(Hr & Hbelow)].
  - left. exists k. repeat split; try assumption; try lia.
    intros j Hj. destruct (Z.eq_dec j i) as [->|]; [assumption|].
    apply Hbelow. lia.
  - right. split; [assumption|].
    intros j Hj. destruct (Z.eq_dec j i) as [->|]; [assumption|].
    apply Hbelow. lia.
Qed.

Lemma FirstSet_loop_spec (fuel : nat) :
  forall i, 0 <= i -> Len bf - i <= Z.of_nat fuel ->
  scan_spec bf true i (FirstSet_loop bf fuel i).
Proof.
  induction fuel as [|fuel IH]; intros i Hi Hfuel.
  - simpl. destruct (Z.ltb_spec i (bf_length bf)); [unfold Len in *; lia|].
    right. split; [reflexivity|]. unfold Len. intros j Hj. lia.
  - simpl. destruct (Z.ltb_spec i (bf_length bf)) as [Hlt|Hge].
    + destruct (Test_ok bf i HI1) as [t Ht]; [unfold Len; lia|].
      rewrite Ht. destruct t.
      * left. exists i. repeat split; try assumption; unfold Len; lia.
      * rewrite u32_small by (unfold is_u32, Len in *; lia).
        apply scan_spec_step; [exact Ht|]. apply IH; lia.
    + right. split; [reflexivity|]. unfold Len. intros j Hj. lia.
Qed.

Lemma FirstClear_loop_spec (fuel : nat) :
  forall i, 0 <= i -> Len bf - i <= Z.of_nat fuel ->
  scan_spec bf false i (FirstClear_loop bf fuel i).
Proof.
  induction fuel as [|fuel IH]; intros i Hi Hfuel.
  - simpl. destruct (Z.ltb_spec i (bf_length bf)); [unfold Len in *; lia|].
    right. split; [reflexivity|]. unfold Len. intros j Hj. lia.
  - simpl. destruct (Z.ltb_spec i (bf_length bf)) as [Hlt|Hge].
    + destruct (Test_ok bf i HI1) as [t Ht]; [unfold Len; lia|].
      rewrite Ht. destruct t.
      * rewrite u32_small by (unfold is_u32, Len in *; lia).
        apply scan_spec_step; [exact Ht|]. apply IH; lia.
      * left. exists i. repeat split; try assumption; unfold Len; lia.
    + right. split; [reflexivity|]. unfold Len. intros j Hj. lia.
Qed.

End Scans.

Lemma FirstSet_past_end (bf : Bitfield) (start : Z) :
  Len bf <= start -> FirstSet bf start = Some (Ok (0, false)).
Proof.
  intros H. unfold FirstSet, Len in *.
  replace (Z.to_nat (bf_length bf - start)) with O by lia. simpl.
  destruct (Z.ltb_spec start (bf_length bf)); [lia|reflexivity].
Qed.

Lemma FirstClear_past_end (bf : Bitfield) (start : Z) :
  Len bf <= start -> FirstClear bf start = Some (Ok (0, false)).
Proof.
  intros H. unfold FirstClear, Len in *.
  replace (Z.to_nat (bf_length bf - start)) with O by lia. simpl.
  destruct (Z.ltb_spec start (bf_length bf)); [lia|reflexivity].
Qed.

(** ** Construction with [New] *)

Section Construction.

Lemma ceil8_exact (L : Z) : L mod 8 = 0 -> ceil8 L = L / 8.
Proof. intros H. unfold ceil8. pose proof (Z.div_mod L 8). Z.div_mod_to_equations. lia. Qed.

Lemma ceil8_partial (L : Z) : L mod 8 <> 0 -> ceil8 L = L / 8 + 1.
Proof. intros H. unfold ceil8. Z.div_mod_to_equations. lia. Qed.

Lemma ceil8_nonneg (L : Z) : 0 <= L -> 0 <= ceil8 L.
Proof. intros H. unfold ceil8. apply Z.div_pos; lia. Qed.

Lemma length_Bytes (bf : Bitfield) :
  I1 bf -> Z.of_nat (length (Bytes bf)) = ceil8 (bf_length bf).
Proof.
  intros [Hn Hle]. unfold Bytes, elems. rewrite length_take. lia.
Qed.

(** Under I1 the last byte of the buffer of a length that is not a
    multiple of 8 is the byte of index [length / 8]. *)
Lemma last_Bytes (bf : Bitfield) :
  I1 bf -> 0 <= bf_length bf -> bf_length bf mod 8 <> 0 ->
  list.last (Bytes bf) = index (bf_b bf) (bf_length bf / 8).
Proof.
  intros HI HL Hm. pose proof (length_Bytes bf HI) as Hlen.
  rewrite ceil8_partial in Hlen by exact Hm.
  rewrite last_lookup, index_elems by (apply Z.div_pos; lia).
  unfold Bytes in *. f_equal. lia.
Qed.

(** [New] in the range where [length + 7] does not wrap around. *)
Lemma New_slen (L : Z) :
  0 <= L -> L + 7 < 2 ^ 32 -> Z.of_nat (slen (bf_b (New L))) = ceil8 L.
Proof.
  intros H0 H7. unfold New, ceil8, u32. simpl.
  rewrite Z.mod_small by lia. rewrite Z2Nat.id; [reflexivity|].
  apply Z.div_pos; lia.
Qed.

Lemma New_Bytes (L : Z) :
  Bytes (New L) = replicate (Z.to_nat (u32 (L + 7) / 8)) 0.
Proof.
  unfold Bytes, elems, New. simpl. apply take_ge. rewrite length_replicate. lia.
Qed.

Lemma New_I1 (L : Z) : 0 <= L -> L + 7 < 2 ^ 32 -> I1 (New L).
Proof.
  intros H0 H7. split; [apply New_slen; assumption|].
  unfold New. simpl. rewrite length_replicate. lia.
Qed.

Lemma New_index (L k : Z) v : index (bf_b (New L)) k = Some v -> v = 0.
Proof.
  intros H. apply index_Some in H as [_ H]. unfold New in H. simpl in H.
  apply lookup_replicate_1 in H as [-> _]. reflexivity.
Qed.

Lemma New_Test (L i : Z) :
  0 <= L -> L + 7 < 2 ^ 32 -> 0 <= i < L -> Test (New L) i = Ok false.
Proof.
  intros H0 H7 Hi.
  destruct (I1_index (New L) i (New_I1 L H0 H7) Hi) as [v Hv].
  rewrite Test_in, Hv by exact Hi.
  apply New_index in Hv as ->. rewrite Z.bits_0. reflexivity.
Qed.

Lemma New_wf (L : Z) : 0 <= L -> L + 7 < 2 ^ 32 -> wf (New L).
Proof.
  intros H0 H7. pose proof (New_I1 L H0 H7) as HI.
  split; [exact HI|]. split; [simpl; unfold is_u32; lia|]. split.
  - rewrite New_Bytes. apply Forall_replicate. unfold is_byte. lia.
  - intros Hm. exists 0. split.
    + rewrite last_Bytes by assumption.
      destruct (index_in_range (bf_b (New L)) (bf_length (New L) / 8)) as [v Hv].
      * destruct HI as [Hn _]. rewrite Hn, ceil8_partial by exact Hm.
        split; [apply Z.div_pos; simpl; lia|lia].
      * apply HI.
      * rewrite Hv. f_equal. eapply New_index. exact Hv.
    + intros k Hk. apply Z.bits_0.
Qed.

(** [New] where [length + 7] wraps around: the buffer is empty. *)
Lemma New_wrapped (L : Z) :
  2 ^ 32 - 7 <= L < 2 ^ 32 -> slen (bf_b (New L)) = O /\ Bytes (New L) = [].
Proof.
  intros HL. assert (Hn : Z.to_nat (u32 (L + 7) / 8) = O).
  { unfold u32. replace (L + 7) with (L + 7 - 2 ^ 32 + 1 * 2 ^ 32) by lia.
    rewrite Z.mod_add by lia. rewrite Z.mod_small by lia.
    rewrite Z.div_small by lia. reflexivity. }
  rewrite New_Bytes. unfold New. simpl. rewrite Hn. split; reflexivity.
Qed.

End Construction.

(** ** Calls keep a container well formed *)

Section Preservation.

Implicit Types (bf : Bitfield).

Lemma index_is_byte bf k v :
  Forall is_byte (Bytes bf) -> index (bf_b bf) k = Some v -> is_byte v.
Proof.
  intros Hall Hv. pose proof (index_Some _ _ _ Hv) as [Hk _].
  rewrite index_elems in Hv by lia.
  eapply Forall_lookup_1; [exact Hall|exact Hv].
Qed.

(** Writing, at the byte of a valid index [i], a byte [w] that has no bit
    set which the old byte had not, the bit of [i] apart. *)
Lemma wf_write bf i v w :
  wf bf -> 0 <= i < Len bf ->
  index (bf_b bf) (i / 8) = Some v ->
  is_byte w ->
  (forall k, 0 <= k -> k <> 7 - i mod 8 ->
             Z.testbit v k = false -> Z.testbit w k = false) ->
  wf (mkBitfield (store (bf_b bf) (i / 8) w) (bf_length bf)).
Proof.
  intros (HI & HL & Hbytes & Hpad) Hi Hv Hw Hbits.
  assert (HI' : I1 (mkBitfield (store (bf_b bf) (i / 8) w) (bf_length bf))).
  { destruct HI as [Hn Hle]. split; simpl; [exact Hn|].
    rewrite length_insert. exact Hle. }
  split; [exact HI'|]. split; [exact HL|]. split.
  - unfold Bytes. simpl. rewrite elems_store.
    apply Forall_insert; assumption.
  - intros Hm. simpl in Hm. destruct (Hpad Hm) as (u & Hu & Hlow).
    rewrite last_Bytes in Hu by (try assumption; apply HL).
    rewrite last_Bytes by (try assumption; apply HL). simpl.
    destruct (Z.eq_dec (i / 8) (bf_length bf / 8)) as [Heq|Hne].
    + rewrite <- Heq in *. rewrite Hv in Hu. injection Hu as <-.
      exists w. split; [eapply index_store_eq; exact Hv|].
      intros k Hk. apply Hbits; [lia| |apply Hlow; exact Hk].
      unfold Len in Hi.
      pose proof (Z.div_mod i 8). pose proof (Z.div_mod (bf_length bf) 8).
      pose proof (mod8_range i). pose proof (mod8_range (bf_length bf)). lia.
    + exists u. split; [|exact Hlow].
      rewrite index_store_ne; [exact Hu| | |exact Hne].
      * apply Z.div_pos; lia.
      * apply Z.div_pos; [apply HL|lia].
Qed.

Lemma wf_Set bf i : wf bf -> 0 <= i < Len bf -> wf (fst (Set_ bf i)).
Proof.
  intros Hwf Hi. pose proof Hwf as (HI & HL & Hbytes & Hpad).
  destruct (I1_index bf i HI Hi) as [v Hv].
  rewrite Set_in, Hv by exact Hi. simpl.
  pose proof (mod8_range i).
  apply (wf_write bf i v); try assumption.
  - apply is_byte_lor_pow2; [eapply index_is_byte; eassumption|lia].
  - intros k Hk Hne Hbit. rewrite testbit_lor_pow2, Hbit by lia.
    destruct (Z.eqb_spec (7 - i mod 8) k); [lia|reflexivity].
Qed.

Lemma wf_Clear bf i : wf bf -> 0 <= i < Len bf -> wf (fst (Clear bf i)).
Proof.
  intros Hwf Hi. pose proof Hwf as (HI & HL & Hbytes & Hpad).
  destruct (I1_index bf i HI Hi) as [v Hv].
  rewrite Clear_in, Hv by exact Hi. simpl.
  apply (wf_write bf i v); try assumption.
  - apply is_byte_land. eapply index_is_byte; eassumption.
  - intros k Hk Hne Hbit. rewrite Z.land_spec, Hbit. reflexivity.
Qed.

Lemma wf_SetTo bf i value :
  wf bf -> 0 <= i < Len bf -> wf (fst (SetTo bf i value)).
Proof.
  intros Hwf Hi. rewrite SetTo_in by exact Hi.
  destruct value; [apply wf_Set|apply wf_Clear]; assumption.
Qed.

Lemma Len_SetTo bf i value : Len (fst (SetTo bf i value)) = Len bf.
Proof.
  unfold SetTo. destruct (checkIndex bf i); [|reflexivity].
  destruct value; [apply Len_Set|apply Len_Clear].
Qed.

Lemma Len_do_call bf c : Len (fst (do_call bf c)) = Len bf.
Proof. destruct c; simpl; [apply Len_Set|apply Len_Clear|apply Len_SetTo]. Qed.

Lemma wf_do_call bf c :
  wf bf -> 0 <= call_index c < Len bf -> wf (fst (do_call bf c)).
Proof. destruct c; simpl; [apply wf_Set|apply wf_Clear|apply wf_SetTo]. Qed.

Lemma do_call_ok bf c :
  I1 bf -> 0 <= call_index c < Len bf -> snd (do_call bf c) = Ok tt.
Proof. destruct c; simpl; [apply Set_ok|apply Clear_ok|apply SetTo_ok]. Qed.

(** A run of calls at valid indices from a well-formed container ends
    without a panic in a well-formed container of the same length. *)
Lemma run_wf (cs : list call) :
  forall bf, wf bf ->
  Forall (fun c => 0 <= call_index c < Len bf) cs ->
  wf (fst (run bf cs)) /\ snd (run bf cs) = Ok tt /\
  Len (fst (run bf cs)) = Len bf.
Proof.
  induction cs as [|c cs IH]; intros bf Hwf Hcs.
  - simpl. auto.
  - apply Forall_cons_1 in Hcs as [Hc Hcs]. simpl.
    pose proof (wf_do_call bf c Hwf Hc) as Hwf'.
    pose proof (do_call_ok bf c (proj1 Hwf) Hc) as Hok.
    pose proof (Len_do_call bf c) as HLen.
    destruct (do_call bf c) as [bf' r]. simpl in *. subst r.
    rewrite <- HLen in Hcs. rewrite <- HLen. apply IH; assumption.
Qed.

End Preservation.

(** ** Counting *)

Section Counting.

Implicit Types (bf : Bitfield) (l : list Z) (f : nat -> bool).

(** Every entry of the table is the bit count of its index. *)
Lemma countCache_popcount (v : Z) :
  is_byte v -> nth (Z.to_nat v) countCache 0 = popcount8 v.
Proof.
  intros Hv.
  assert (Hall : forallb (fun n => nth n countCache 0 =? popcount8 (Z.of_nat n))
                         (seq 0 256) = true) by (vm_compute; reflexivity).
  rewrite forallb_forall in Hall.
  specialize (Hall (Z.to_nat v)).
  rewrite Z2Nat.id in Hall by apply Hv.
  apply Z.eqb_eq, Hall, in_seq. unfold is_byte in Hv. lia.
Qed.

Lemma popcount8_nonneg (v : Z) : 0 <= popcount8 v.
Proof.
  unfold popcount8.
  destruct (Z.testbit v 7), (Z.testbit v 6), (Z.testbit v 5), (Z.testbit v 4),
    (Z.testbit v 3), (Z.testbit v 2), (Z.testbit v 1), (Z.testbit v 0);
    simpl; lia.
Qed.

Lemma popsum_nonneg l : 0 <= popsum l.
Proof.
  induction l as [|v l IH]; simpl; [lia|]. pose proof (popcount8_nonneg v). lia.
Qed.

Lemma popsum_app l1 l2 : popsum (l1 ++ l2) = popsum l1 + popsum l2.
Proof. induction l1 as [|v l1 IH]; simpl; [reflexivity|]. rewrite IH. lia. Qed.

(** The loop of [Count] adds up the bit counts as long as the total fits
    a [uint32]. *)
Lemma Count_loop l :
  forall a, Forall is_byte l -> 0 <= a -> a + popsum l < 2 ^ 32 ->
  foldl (fun total v => u32 (total + nth (Z.to_nat v) countCache 0)) a l
  = a + popsum l.
Proof.
  induction l as [|v l IH]; intros a Hl Ha Hsum.
  - simpl in *. lia.
  - apply Forall_cons_1 in Hl as [Hv Hl].
    change (popsum (v :: l)) with (popcount8 v + popsum l) in *.
    cbn [foldl]. rewrite (countCache_popcount v Hv).
    pose proof (popcount8_nonneg v). pose proof (popsum_nonneg l).
    rewrite u32_small by (unfold is_u32; lia).
    rewrite IH by (try assumption; lia). lia.
Qed.

Lemma count_cons f (x : nat) (xs : list nat) :
  Z.of_nat (length (List.filter f (x :: xs)))
  = Z.b2z (f x) + Z.of_nat (length (List.filter f xs)).
Proof. simpl. destruct (f x); simpl; lia. Qed.

Lemma count_none f (xs : list nat) :
  (forall x, In x xs -> f x = false) -> List.filter f xs = [].
Proof.
  induction xs as [|x xs IH]; intros H; simpl; [reflexivity|].
  rewrite (H x) by (left; reflexivity). apply IH. intros y Hy. apply H. right. exact Hy.
Qed.

Lemma bit_at_block l (k m : nat) v :
  l !! k = Some v -> (m < 8)%nat ->
  bit_at l (m + k * 8) = Z.testbit v (7 - Z.of_nat m).
Proof.
  intros Hk Hm. unfold bit_at.
  rewrite Nat.div_add, Nat.Div0.mod_add by lia.
  rewrite Nat.div_small, Nat.mod_small by lia. simpl. rewrite Hk. reflexivity.
Qed.

(** The eight bits of byte [k]. *)
Lemma count_block l (k : nat) v :
  l !! k = Some v ->
  Z.of_nat (length (List.filter (bit_at l) (seq (k * 8) 8))) = popcount8 v.
Proof.
  intros Hk. cbn [seq]. rewrite !count_cons. simpl List.filter. simpl length.
  change (k * 8)%nat with (0 + k * 8)%nat at 1.
  change (S (k * 8)) with (1 + k * 8)%nat.
  change (S (1 + k * 8)) with (2 + k * 8)%nat.
  change (S (2 + k * 8)) with (3 + k * 8)%nat.
  change (S (3 + k * 8)) with (4 + k * 8)%nat.
  change (S (4 + k * 8)) with (5 + k * 8)%nat.
  change (S (5 + k * 8)) with (6 + k * 8)%nat.
  change (S (6 + k * 8)) with (7 + k * 8)%nat.
  rewrite !(bit_at_block l k _ v Hk) by lia.
  unfold popcount8. simpl. lia.
Qed.

(** The bits of the first [n] bytes. *)
Lemma count_bytes l (n : nat) :
  (n <= length l)%nat ->
  Z.of_nat (length (List.filter (bit_at l) (seq 0 (n * 8)))) = popsum (take n l).
Proof.
  induction n as [|n IH]; intros Hn.
  - reflexivity.
  - destruct (lookup_lt_is_Some_2 l n) as [v Hv]; [lia|].
    replace (S n * 8)%nat with (n * 8 + 8)%nat by lia.
    rewrite seq_app, List.filter_app, length_app, Nat2Z.inj_add.
    rewrite IH by lia. change (0 + n * 8)%nat with (n * 8)%nat.
    rewrite (count_block l n v Hv), (take_S_r l n v Hv), popsum_app.
    simpl. lia.
Qed.

Lemma tests_true_bit_at bf (i : nat) :
  Z.of_nat i < Len bf -> tests_true bf (Z.of_nat i) = bit_at (Bytes bf) i.
Proof.
  intros Hi. unfold tests_true, bit_at, Bytes.
  rewrite Test_in by lia.
  rewrite index_elems by (apply Z.div_pos; lia).
  change 8 with (Z.of_nat 8) at 1 2.
  rewrite <- Nat2Z.inj_div, <- Nat2Z.inj_mod, Nat2Z.id.
  destruct (elems (bf_b bf) !! (i / 8)%nat) as [v|]; [|reflexivity].
  destruct (Z.testbit v (7 - Z.of_nat (i mod 8))); reflexivity.
Qed.

(** Under I1 and I2 the bits past the length are not set. *)
Lemma padding_bit_at bf (i : nat) :
  wf bf -> Len bf <= Z.of_nat i -> bit_at (Bytes bf) i = false.
Proof.
  intros (HI & HL & Hbytes & Hpad) Hi. unfold bit_at, Len in *.
  destruct (Bytes bf !! (i / 8)%nat) as [v|] eqn:Hv; [|reflexivity].
  pose proof (lookup_lt_Some _ _ _ Hv) as Hlt.
  pose proof (length_Bytes bf HI) as Hlen.
  assert (Hi8 : Z.of_nat (i / 8) < ceil8 (bf_length bf)) by lia.
  rewrite Nat2Z.inj_div in Hi8. rewrite Nat2Z.inj_mod.
  change (Z.of_nat 8) with 8 in *.
  destruct (Z.eq_dec (bf_length bf mod 8) 0) as [Hz|Hnz].
  - rewrite ceil8_exact in Hi8 by exact Hz. exfalso.
    pose proof (Z.div_le_mono (bf_length bf) (Z.of_nat i) 8). lia.
  - rewrite ceil8_partial in Hi8 by exact Hnz.
    pose proof (Z.div_le_mono (bf_length bf) (Z.of_nat i) 8 ltac:(lia) Hi) as Hd.
    assert (Hsame : Z.of_nat i / 8 = bf_length bf / 8) by lia.
    destruct (Hpad Hnz) as (u & Hu & Hlow).
    rewrite last_lookup in Hu.
    replace (Init.Nat.pred (length (Bytes bf))) with (i / 8)%nat in Hu.
    2:{ rewrite ceil8_partial in Hlen by exact Hnz.
        apply Nat2Z.inj. rewrite Nat2Z.inj_div. change (Z.of_nat 8) with 8. lia. }
    rewrite Hv in Hu. injection Hu as <-.
    apply Hlow.
    pose proof (Z.div_mod (Z.of_nat i) 8). pose proof (Z.div_mod (bf_length bf) 8).
    pose proof (mod8_range (Z.of_nat i)). lia.
Qed.

(** [Count] in a well-formed container is the number of set bits inside
    the length. *)
Lemma Count_wf bf : wf bf -> Count bf = count_tests bf.
Proof.
  intros Hwf. pose proof Hwf as (HI & HL & Hbytes & Hpad).
  pose proof (length_Bytes bf HI) as Hlen.
  unfold count_tests, Len.
  set (n := Z.to_nat (bf_length bf)).
  set (nb := length (Bytes bf)).
  assert (Hn : Z.of_nat n = bf_length bf) by (unfold n; apply Z2Nat.id, HL).
  assert (Hle : (n <= nb * 8)%nat).
  { unfold ceil8 in Hlen. fold nb in Hlen. Z.div_mod_to_equations. lia. }
  assert (Hsum : popsum (Bytes bf) =
    Z.of_nat (length (List.filter (fun i : nat => tests_true bf (Z.of_nat i)) (seq 0 n)))).
  { rewrite <- (take_ge (Bytes bf) nb) at 1 by (unfold nb; lia).
    rewrite <- count_bytes by (unfold nb; lia).
    replace (nb * 8)%nat with (n + (nb * 8 - n))%nat by lia.
    rewrite seq_app, List.filter_app, length_app. simpl.
    rewrite (count_none _ (seq n (nb * 8 - n))).
    2:{ intros i Hi. apply in_seq in Hi. apply padding_bit_at; [exact Hwf|].
        unfold Len. lia. }
    simpl. rewrite Nat.add_0_r. do 2 f_equal.
    apply List.filter_ext_in. intros i Hi. apply in_seq in Hi.
    symmetry. apply tests_true_bit_at. unfold Len. lia. }
  unfold Count. fold (Bytes bf).
  rewrite Count_loop; [lia|exact Hbytes|lia|].
  rewrite Hsum. pose proof (List.filter_length_le
    (fun i : nat => tests_true bf (Z.of_nat i)) (seq 0 n)) as Hb.
  rewrite length_seq in Hb. unfold is_u32 in HL. lia.
Qed.

End Counting.

(** ** Construction with [NewBytes] *)

Section FromBytes.

Implicit Types (b : list Z).

Lemma calcSize_eq (L : Z) : is_u32 L -> calcSize L = (ceil8 L, L mod 8).
Proof.
  intros HL. unfold calcSize, divMod32.
  destruct (Z.eqb_spec (L mod 8) 0) as [Hz|Hnz]; simpl.
  - rewrite ceil8_exact by exact Hz. reflexivity.
  - rewrite ceil8_partial by exact Hnz. rewrite u32_small; [reflexivity|].
    unfold is_u32 in *. pose proof (Z.div_pos L 8).
    pose proof (Z.div_le_upper_bound L 8 (2 ^ 29)). lia.
Qed.

(** The mask [^(0xff >> nLastBits)] keeps the high [nLastBits] bits of a
    byte and clears the other ones. *)
Lemma testbit_tail_mask (v r k : Z) :
  0 < r < 8 -> 0 <= k < 8 ->
  Z.testbit (Z.land v (not8 (u8 (Z.shiftr 255 r)))) k
  = Z.testbit v k && (8 - r <=? k).
Proof.
  intros Hr Hk. rewrite Z.land_spec, testbit_not8 by lia.
  unfold u8. rewrite Z.mod_pow2_bits_low, Z.shiftr_spec, testbit_255 by lia.
  replace (k <? 8) with true by (symmetry; apply Z.ltb_lt; lia).
  f_equal. destruct (Z.ltb_spec (k + r) 8), (Z.leb_spec (8 - r) k);
    try reflexivity; lia.
Qed.

Lemma tail_mask_low_bits (v r : Z) :
  0 < r < 8 -> low_bits_zero (8 - r) (Z.land v (not8 (u8 (Z.shiftr 255 r)))).
Proof.
  intros Hr k Hk. rewrite testbit_tail_mask by lia.
  replace (8 - r <=? k) with false by (symmetry; apply Z.leb_gt; lia).
  apply andb_false_r.
Qed.

Lemma u32_le (x : Z) : 0 <= x -> u32 x <= x.
Proof. intros Hx. unfold u32. apply Z.mod_le; lia. Qed.

(** [NewBytes] panics when the truncated length of the slice is below the
    number of bytes needed. *)
Lemma NewBytes_panics b (L : Z) :
  is_u32 L -> u32 (Z.of_nat (length b)) < ceil8 L ->
  NewBytes b L = (b, Panic NotEnoughBytes).
Proof.
  intros HL Hlt. unfold NewBytes. rewrite calcSize_eq by exact HL.
  cbv beta iota zeta.
  replace (u32 (Z.of_nat (length b)) <? ceil8 L) with true
    by (symmetry; apply Z.ltb_lt; exact Hlt).
  reflexivity.
Qed.

(** A length that is a multiple of 8: nothing is written. *)
Lemma NewBytes_whole b (L : Z) :
  is_u32 L -> L mod 8 = 0 -> ceil8 L <= u32 (Z.of_nat (length b)) ->
  NewBytes b L = (b, Ok (mkBitfield (mkSlice b (Z.to_nat (ceil8 L))) L)).
Proof.
  intros HL Hz Hge. unfold NewBytes. rewrite calcSize_eq by exact HL.
  cbv beta iota zeta.
  replace (u32 (Z.of_nat (length b)) <? ceil8 L) with false
    by (symmetry; apply Z.ltb_ge; exact Hge).
  rewrite Hz. reflexivity.
Qed.

(** A length that is not a multiple of 8: the last byte of the caller's
    slice is masked. *)
Lemma NewBytes_partial b (L : Z) :
  is_u32 L -> L mod 8 <> 0 -> ceil8 L <= u32 (Z.of_nat (length b)) ->
  exists v, b !! (length b - 1)%nat = Some v /\
    let b' := <[(length b - 1)%nat :=
                 Z.land v (not8 (u8 (Z.shiftr 255 (L mod 8))))]> b in
    NewBytes b L = (b', Ok (mkBitfield (mkSlice b' (Z.to_nat (ceil8 L))) L)).
Proof.
  intros HL Hnz Hge.
  assert (Hpos : 1 <= Z.of_nat (length b)).
  { pose proof (u32_le (Z.of_nat (length b))). rewrite ceil8_partial in Hge by exact Hnz.
    pose proof (Z.div_pos L 8). unfold is_u32 in HL. lia. }
  destruct (lookup_lt_is_Some_2 b (length b - 1)%nat) as [v Hv]; [lia|].
  exists v. split; [exact Hv|].
  unfold NewBytes. rewrite calcSize_eq by exact HL.
  cbv beta iota zeta.
  replace (u32 (Z.of_nat (length b)) <? ceil8 L) with false
    by (symmetry; apply Z.ltb_ge; exact Hge).
  replace (L mod 8 =? 0) with false by (symmetry; apply Z.eqb_neq; exact Hnz).
  cbv [negb]. unfold index. cbv [backing slen].
  replace (0 <=? Z.of_nat (length b) - 1) with true by (symmetry; apply Z.leb_le; lia).
  replace (Z.of_nat (length b) - 1 <? Z.of_nat (length b)) with true
    by (symmetry; apply Z.ltb_lt; lia).
  cbv [andb].
  replace (Z.to_nat (Z.of_nat (length b) - 1)) with (length b - 1)%nat by lia.
  rewrite Hv. reflexivity.
Qed.

(** A slice of exactly ceil(L/8) bytes gives a well-formed container. *)
Lemma NewBytes_exact_wf b (L : Z) :
  is_u32 L -> Forall is_byte b -> Z.of_nat (length b) = ceil8 L ->
  exists bf, snd (NewBytes b L) = Ok bf /\ wf bf /\ Len bf = L /\
             backing (bf_b bf) = fst (NewBytes b L).
Proof.
  intros HL Hb Hlen.
  assert (Hu : u32 (Z.of_nat (length b)) = Z.of_nat (length b)).
  { apply u32_small. rewrite Hlen. unfold is_u32, ceil8 in *.
    split; [apply Z.div_pos; lia|]. apply Z.div_lt_upper_bound; lia. }
  destruct (Z.eq_dec (L mod 8) 0) as [Hz|Hnz].
  - rewrite NewBytes_whole by (try assumption; lia). simpl.
    eexists. split; [reflexivity|]. repeat split; simpl; try apply HL.
    + lia.
    + lia.
    + unfold Bytes, elems. simpl. rewrite take_ge by lia. exact Hb.
    + intros Hm. simpl in Hm. contradiction.
  - destruct (NewBytes_partial b L HL Hnz) as (v & Hv & Heq); [lia|].
    cbv zeta in Heq. rewrite Heq. simpl.
    eexists. split; [reflexivity|].
    assert (Hbytes : Bytes (mkBitfield (mkSlice
       (<[(length b - 1)%nat := Z.land v (not8 (u8 (Z.shiftr 255 (L mod 8))))]> b)
       (Z.to_nat (ceil8 L))) L)
       = <[(length b - 1)%nat := Z.land v (not8 (u8 (Z.shiftr 255 (L mod 8))))]> b).
    { unfold Bytes, elems. simpl. apply take_ge. rewrite length_insert. lia. }
    repeat split; simpl; try apply HL.
    + lia.
    + rewrite length_insert. lia.
    + rewrite Hbytes. apply Forall_insert; [exact Hb|].
      apply is_byte_land. eapply Forall_lookup_1; eassumption.
    + intros _. rewrite Hbytes. eexists. split.
      * rewrite last_lookup, length_insert.
        replace (Init.Nat.pred (length b)) with (length b - 1)%nat by lia.
        apply list_lookup_insert_eq. apply lookup_lt_Some in Hv. exact Hv.
      * apply tail_mask_low_bits. pose proof (mod8_range L). lia.
Qed.

End FromBytes.

(** ** [ClearAll] *)

Section Clearing.

Lemma ClearAll_loop (n : nat) (s : slice) :
  (n <= length (backing s))%nat ->
  let s' := foldl (fun s i => store s (Z.of_nat i) 0) s (seq 0 n) in
  slen s' = slen s /\ backing s' = replicate n 0 ++ drop n (backing s).
Proof.
  induction n as [|n IH]; intros Hn.
  - simpl. rewrite drop_0. auto.
  - rewrite seq_S, foldl_snoc. cbv zeta in *.
    destruct IH as [IHs IHb]; [lia|].
    destruct (lookup_lt_is_Some_2 (backing s) n) as [v Hv]; [lia|].
    split; [exact IHs|]. unfold store at 1. cbv [backing].
    fold (backing (foldl (fun s i => store s (Z.of_nat i) 0) s (seq 0 n))).
    rewrite IHb, Nat.add_0_l, Nat2Z.id.
    rewrite insert_app_r_alt by (rewrite length_replicate; lia).
    rewrite length_replicate, Nat.sub_diag, (drop_S _ _ _ Hv).
    rewrite replicate_S_end, <- app_assoc. reflexivity.
Qed.

Lemma ClearAll_Bytes (bf : Bitfield) :
  (slen (bf_b bf) <= length (backing (bf_b bf)))%nat ->
  Bytes (ClearAll bf) = replicate (slen (bf_b bf)) 0 /\
  slen (bf_b (ClearAll bf)) = slen (bf_b bf) /\
  length (backing (bf_b (ClearAll bf))) = length (backing (bf_b bf)) /\
  Len (ClearAll bf) = Len bf.
Proof.
  intros Hle. destruct (ClearAll_loop (slen (bf_b bf)) (bf_b bf) Hle) as [Hs Hb].
  unfold Bytes, elems, ClearAll. simpl. rewrite Hs, Hb.
  repeat split.
  - apply take_app_length'. rewrite length_replicate. reflexivity.
  - rewrite length_app, length_replicate, length_drop. lia.
Qed.

Lemma wf_ClearAll (bf : Bitfield) : wf bf -> wf (ClearAll bf).
Proof.
  intros (HI & HL & Hbytes & Hpad). pose proof HI as [Hn Hle].
  destruct (ClearAll_Bytes bf Hle) as (HB & Hs & Hlen & HLen).
  unfold Len in HLen.
  assert (HI' : I1 (ClearAll bf)).
  { split; [rewrite Hs, HLen; exact Hn|rewrite Hs, Hlen; exact Hle]. }
  split; [exact HI'|]. split; [rewrite HLen; exact HL|]. split.
  - rewrite HB. apply Forall_replicate. unfold is_byte. lia.
  - intros Hm. exists 0. split; [|intros k _; apply Z.bits_0].
    rewrite HB, last_lookup, length_replicate.
    apply lookup_replicate_2. rewrite HLen in Hm.
    rewrite ceil8_partial in Hn by exact Hm.
    pose proof (Z.div_pos (bf_length bf) 8). unfold is_u32 in HL. lia.
Qed.

End Clearing.

(** ** Runs of calls *)

Section Runs.

Implicit Types (bf : Bitfield) (cs : list call).

Lemma slen_SetTo bf i value :
  slen (bf_b (fst (SetTo bf i value))) = slen (bf_b bf).
Proof.
  unfold SetTo. destruct (checkIndex bf i); [|reflexivity].
  destruct value; [apply slen_Set|apply slen_Clear].
Qed.

Lemma slen_run cs :
  forall bf, slen (bf_b (fst (run bf cs))) = slen (bf_b bf) /\
             Len (fst (run bf cs)) = Len bf.
Proof.
  induction cs as [|c cs IH]; intros bf; [split; reflexivity|].
  simpl.
  assert (Hc : slen (bf_b (fst (do_call bf c))) = slen (bf_b bf)).
  { destruct c; simpl; [apply slen_Set|apply slen_Clear|apply slen_SetTo]. }
  pose proof (Len_do_call bf c) as HL.
  destruct (do_call bf c) as [bf' [[]|p]]; simpl in *.
  - destruct (IH bf') as [Hs Hl]. rewrite Hs, Hl. auto.
  - auto.
Qed.

(** A container whose slice is empty: [Count] is 0 and no [Test] answers
    true. *)
Lemma empty_counts bf :
  slen (bf_b bf) = O -> Count bf = 0 /\ count_tests bf = 0.
Proof.
  intros Hs. split.
  - unfold Count, elems. rewrite Hs. reflexivity.
  - unfold count_tests. rewrite count_none; [reflexivity|].
    intros i _. unfold tests_true, Test.
    destruct (checkIndex bf (Z.of_nat i)); [|reflexivity].
    unfold divMod32, index. rewrite Hs.
    destruct (0 <=? Z.of_nat i / 8) eqn:E1; [|reflexivity].
    destruct (Z.ltb_spec (Z.of_nat i / 8) (Z.of_nat 0)); [|reflexivity].
    apply Z.leb_le in E1. lia.
Qed.

(** Setting the indices of [S] one after the other. *)
Lemma run_sets (S : list Z) :
  forall bf, I1 bf -> Forall (fun i => 0 <= i < Len bf) S ->
  snd (run bf (map CallSet S)) = Ok tt /\
  forall j t, 0 <= j < Len bf -> Test bf j = Ok t ->
    exists t', Test (fst (run bf (map CallSet S))) j = Ok t' /\
               (t' = true <-> t = true \/ j ∈ S).
Proof.
  induction S as [|a S IH]; intros bf HI HS.
  - split; [reflexivity|]. intros j t Hj Ht. exists t. split; [exact Ht|].
    split; [auto|]. intros [H|H]; [exact H|]. inversion H.
  - apply Forall_cons_1 in HS as [Ha HS]. simpl.
    pose proof (Set_ok bf a HI Ha) as Hok.
    pose proof (I1_Set bf a HI) as HI'.
    pose proof (Len_Set bf a) as HL.
    pose proof (fun j => Test_Set bf a j Ha) as HT.
    destruct (Set_ bf a) as [bf' r]. simpl in *. subst r.
    rewrite <- HL in HS. destruct (IH bf' HI' HS) as [Hrun Htest].
    split; [exact Hrun|]. intros j t Hj Ht.
    specialize (HT j Hj). rewrite Ht in HT.
    destruct (Htest j _ ltac:(lia) HT) as (t' & Ht' & Hiff).
    exists t'. split; [exact Ht'|]. rewrite Hiff, orb_true_iff, Z.eqb_eq.
    rewrite elem_of_cons. intuition congruence.
Qed.

(** Round trip, where [length + 7] does not wrap around in [New]. *)
Lemma round_trip (L : Z) (S : list Z) :
  0 <= L -> L + 7 < 2 ^ 32 -> Forall (fun i => 0 <= i < L) S ->
  snd (run (New L) (map CallSet S)) = Ok tt /\
  forall i, 0 <= i < L ->
    exists t, Test (fst (run (New L) (map CallSet S))) i = Ok t /\
              (t = true <-> i ∈ S).
Proof.
  intros H0 H7 HS.
  destruct (run_sets S (New L) (New_I1 L H0 H7) HS) as [Hok Htest].
  split; [exact Hok|]. intros i Hi.
  destruct (Htest i false Hi (New_Test L i H0 H7 Hi)) as (t & Ht & Hiff).
  exists t. split; [exact Ht|]. rewrite Hiff. intuition congruence.
Qed.

(** Padding stays clear under calls at valid indices and [ClearAll]. *)
Lemma padding_kept bf cs :
  wf bf -> Forall (fun c => 0 <= call_index c < Len bf) cs ->
  I2 (fst (run bf cs)) /\ I2 (ClearAll (fst (run bf cs))) /\ I2 (ClearAll bf).
Proof.
  intros Hwf Hcs. destruct (run_wf cs bf Hwf Hcs) as (Hwf' & _ & _).
  split; [apply Hwf'|]. split; [apply wf_ClearAll, Hwf'|apply wf_ClearAll, Hwf].
Qed.

(** [NewBytes] on a slice shorter than 2^32 bytes. *)
Lemma NewBytes_short_slice (b : list Z) (L : Z) :
  is_u32 L -> Z.of_nat (length b) < 2 ^ 32 ->
  (Z.of_nat (length b) < ceil8 L -> NewBytes b L = (b, Panic NotEnoughBytes)) /\
  (ceil8 L <= Z.of_nat (length b) ->
     exists bf, snd (NewBytes b L) = Ok bf /\ Len bf = L /\
       backing (bf_b bf) = fst (NewBytes b L) /\
       Bytes bf = take (Z.to_nat (ceil8 L)) (fst (NewBytes b L)) /\
       Z.of_nat (length (Bytes bf)) = ceil8 L).
Proof.
  intros HL Hlen.
  assert (Hu : u32 (Z.of_nat (length b)) = Z.of_nat (length b))
    by (apply u32_small; unfold is_u32; lia).
  split; intros Hcmp.
  - apply NewBytes_panics; [exact HL|lia].
  - pose proof (ceil8_nonneg L ltac:(apply HL)) as Hc.
    destruct (Z.eq_dec (L mod 8) 0) as [Hz|Hnz].
    + rewrite NewBytes_whole by (try assumption; lia). simpl.
      eexists. split; [reflexivity|]. repeat split.
      unfold Bytes, elems. simpl. rewrite length_take. lia.
    + destruct (NewBytes_partial b L HL Hnz) as (v & Hv & Heq); [lia|].
      cbv zeta in Heq. rewrite Heq. simpl.
      eexists. split; [reflexivity|]. repeat split.
      unfold Bytes, elems. simpl. rewrite length_take, length_insert. lia.
Qed.

End Runs.

(** One round of the scans. *)
Lemma FirstSet_loop_S (bf : Bitfield) (fuel : nat) (i : Z) :
  FirstSet_loop bf (S fuel) i =
    if i <? bf_length bf then
      match Test bf i with
      | Panic p => Some (Panic p)
      | Ok true => Some (Ok (i, true))
      | Ok false => FirstSet_loop bf fuel (u32 (i + 1))
      end
    else Some (Ok (0, false)).
Proof. reflexivity. Qed.

Lemma FirstClear_loop_S (bf : Bitfield) (fuel : nat) (i : Z) :
  FirstClear_loop bf (S fuel) i =
    if i <? bf_length bf then
      match Test bf i with
      | Panic p => Some (Panic p)
      | Ok false => Some (Ok (i, true))
      | Ok true => FirstClear_loop bf fuel (u32 (i + 1))
      end
    else Some (Ok (0, false)).
Proof. reflexivity. Qed.

(** In a container with an empty slice every [Test] panics. *)
Lemma Test_empty (bf : Bitfield) (i : Z) :
  slen (bf_b bf) = O -> exists p, Test bf i = Panic p.
Proof.
  intros Hs. unfold Test. destruct (checkIndex bf i); [|eauto].
  unfold divMod32, index. rewrite Hs.
  destruct (0 <=? i / 8) eqn:E1; [|eauto].
  destruct (Z.ltb_spec (i / 8) (Z.of_nat 0)); [|eauto].
  apply Z.leb_le in E1. lia.
Qed.

(** * The claims *)

(** C1, at the input [b = {0xff, 0xff}], [length = 4]. The claim says that
    the container returned by [NewBytes] has the low-order 4 bits of the
    last byte of its one-byte buffer equal to 0. [NewBytes] masks
    [b[len(b)-1]], the second byte of the caller's slice, and the
    container's only byte stays [0xff]: I2 fails, [Hex] shows the unused
    bits as set and [Count] counts 8 bits in a container of 4. *)
Theorem C1_NewBytes_leaves_padding_set :
  exists bf,
    NewBytes [255; 255] 4 = ([255; 240], Ok bf) /\
    Len bf = 4 /\ Bytes bf = [255] /\
    ~ I2 bf /\
    Hex bf = "ff"%string /\ Count bf = 8 /\ All bf = false.
Proof.
  eexists. split; [reflexivity|]. repeat split.
  intros H. destruct H as (v & Hv & Hlow); [discriminate|].
  vm_compute in Hv. injection Hv as <-.
  assert (Hbit : Z.testbit 255 0 = false) by (apply Hlow; change (0 <= 0 < 4); lia).
  discriminate Hbit.
Qed.

(** C2, at the input [L = 4294967295], [S = {0}]. The claim says that after
    [New(L)] and [Set(0)], [Test(0)] yields true. [length + 7] wraps
    around in [New], the buffer has no byte, and [Set(0)] and [Test(0)]
    end in the run-time panic of the index expression. *)
Theorem C2_round_trip_fails_at_max_length :
  Bytes (New 4294967295) = [] /\
  run (New 4294967295) (map CallSet [0]) =
    (New 4294967295, Panic RuntimeIndexOutOfRange) /\
  Test (New 4294967295) 0 = Panic RuntimeIndexOutOfRange.
Proof. repeat split. Qed.

(** C3. For every length [L] and every sequence of [Set], [Clear] and
    [SetTo] calls at indices below [L] made on [New(L)], [Count] of the
    container the calls leave is the number of indices in [0, L) at which
    [Test] answers true; and where [L + 7] fits a [uint32] no call of the
    sequence panics. *)
Theorem C3_count_consistency (L : Z) (cs : list call) :
  is_u32 L -> Forall (fun c => 0 <= call_index c < L) cs ->
  Count (fst (run (New L) cs)) = count_tests (fst (run (New L) cs)) /\
  (L + 7 < 2 ^ 32 -> snd (run (New L) cs) = Ok tt).
Proof.
  intros HL Hcs. destruct (Z.lt_ge_cases (L + 7) (2 ^ 32)) as [H7|H7].
  - destruct (run_wf cs (New L) (New_wf L (proj1 HL) H7) Hcs) as (Hwf & Hok & _).
    split; [apply Count_wf, Hwf|]. intros _. exact Hok.
  - split; [|lia].
    destruct (empty_counts (fst (run (New L) cs))) as [HC HT].
    + destruct (slen_run cs (New L)) as [-> _].
      apply New_wrapped. unfold is_u32 in HL. lia.
    + rewrite HC, HT. reflexivity.
Qed.

Lemma C3_count_consistency_witness :
  is_u32 20 /\
  Forall (fun c => 0 <= call_index c < 20)
         [CallSet 0; CallSetTo 7 true; CallClear 0; CallSet 19; CallSetTo 7 false] /\
  Count (fst (run (New 20)
    [CallSet 0; CallSetTo 7 true; CallClear 0; CallSet 19; CallSetTo 7 false])) = 1.
Proof.
  assert (H20 : is_u32 20) by (unfold is_u32; lia).
  assert (Hcs : Forall (fun c => 0 <= call_index c < 20)
    [CallSet 0; CallSetTo 7 true; CallClear 0; CallSet 19; CallSetTo 7 false])
    by (repeat constructor; simpl; lia).
  split; [exact H20|]. split; [exact Hcs|].
  rewrite (proj1 (C3_count_consistency 20 _ H20 Hcs)). reflexivity.
Defined.

(** C4, at the input [L = 4294967295]. The claim says that the buffer of
    [New(L)] has ceil(L/8) = 536870912 bytes. [length + 7] wraps around to
    6 and the buffer has no byte: I1 does not hold. *)
Theorem C4_New_wraps_at_max_length :
  length (Bytes (New 4294967295)) = O /\
  ceil8 4294967295 = 536870912 /\
  ~ I1 (New 4294967295).
Proof.
  repeat split. intros [H _]. discriminate H.
Qed.

(** C5, at the input of the container [New(4294967295)] and [start = 0].
    The claim says that [FirstSet(0)] returns not-found when no bit is set
    and that [FirstClear(0)] returns the smallest index whose bit is not
    set. [length + 7] wraps around in [New] and the buffer has no byte: no
    [Test] answers true, and both scans end in the run-time panic of the
    index expression of [Test(0)]. *)
Theorem C5_scans_panic_at_max_length :
  Bytes (New 4294967295) = [] /\
  (forall i, Test (New 4294967295) i <> Ok true) /\
  FirstSet (New 4294967295) 0 = Some (Panic RuntimeIndexOutOfRange) /\
  FirstClear (New 4294967295) 0 = Some (Panic RuntimeIndexOutOfRange).
Proof.
  split; [reflexivity|]. split.
  - intros i Ht. destruct (Test_empty (New 4294967295) i eq_refl) as [p Hp].
    rewrite Hp in Ht. discriminate Ht.
  - assert (Hfuel : Z.to_nat (bf_length (New 4294967295) - 0)
                    = S (Z.to_nat 4294967294))
      by (change (bf_length (New 4294967295)) with 4294967295; lia).
    unfold FirstSet, FirstClear.
    rewrite Hfuel, FirstSet_loop_S, FirstClear_loop_S.
    change (Test (New 4294967295) 0) with (@Panic bool RuntimeIndexOutOfRange).
    change (0 <? bf_length (New 4294967295)) with true.
    split; reflexivity.
Qed.

(** C6. For every container and every index [i]: when [i >= Len()], each
    of [Test], [Set], [Clear] and [SetTo] ends in the panic of
    [checkIndex] and leaves the container as it was; when [i < Len()],
    none of them ends in that panic; and in a container that satisfies I1
    none of them panics at all at an index inside the length. *)
Theorem C6_bounds_enforced (bf : Bitfield) (i : Z) (value : bool) :
  (Len bf <= i ->
     Test bf i = Panic IndexOutOfBound /\
     Set_ bf i = (bf, Panic IndexOutOfBound) /\
     Clear bf i = (bf, Panic IndexOutOfBound) /\
     SetTo bf i value = (bf, Panic IndexOutOfBound)) /\
  (i < Len bf ->
     Test bf i <> Panic IndexOutOfBound /\
     snd (Set_ bf i) <> Panic IndexOutOfBound /\
     snd (Clear bf i) <> Panic IndexOutOfBound /\
     snd (SetTo bf i value) <> Panic IndexOutOfBound) /\
  (I1 bf -> 0 <= i < Len bf ->
     (exists t, Test bf i = Ok t) /\
     snd (Set_ bf i) = Ok tt /\
     snd (Clear bf i) = Ok tt /\
     snd (SetTo bf i value) = Ok tt).
Proof.
  split; [|split].
  - intros Hge. unfold Test, Set_, Clear, SetTo, checkIndex.
    replace (Len bf <=? i) with true by (symmetry; apply Z.leb_le; exact Hge).
    repeat split.
  - intros Hlt. unfold SetTo, Test, Set_, Clear, checkIndex.
    replace (Len bf <=? i) with false by (symmetry; apply Z.leb_gt; exact Hlt).
    unfold divMod32.
    repeat split; destruct value; destruct (index (bf_b bf) (i / 8));
      simpl; discriminate.
  - intros HI Hi. split; [apply Test_ok; assumption|].
    split; [apply Set_ok; assumption|].
    split; [apply Clear_ok; assumption|apply SetTo_ok; assumption].
Qed.

Lemma C6_bounds_enforced_witness :
  (Len (New 0) <= 0 /\ Test (New 0) 0 = Panic IndexOutOfBound /\
   Set_ (New 0) 0 = (New 0, Panic IndexOutOfBound)) /\
  (I1 (New 20) /\ 0 <= 19 < Len (New 20) /\ snd (Set_ (New 20) 19) = Ok tt) /\
  (20 < Len (New 21) /\ Test (New 21) 20 <> Panic IndexOutOfBound).
Proof.
  assert (H0 : Len (New 0) <= 0) by (change (0 <= 0); lia).
  assert (HI : I1 (New 20)) by (split; [reflexivity|vm_compute; lia]).
  assert (H19 : 0 <= 19 < Len (New 20)) by (change (0 <= 19 < 20); lia).
  assert (H21 : 20 < Len (New 21)) by (change (20 < 21); lia).
  split; [|split].
  - split; [exact H0|].
    pose proof (proj1 (C6_bounds_enforced (New 0) 0 true) H0) as (HT & HS & _).
    split; [exact HT|exact HS].
  - split; [exact HI|]. split; [exact H19|].
    exact (proj1 (proj2 (proj2 (proj2 (C6_bounds_enforced (New 20) 19 true)) HI H19))).
  - split; [exact H21|].
    exact (proj1 (proj1 (proj2 (C6_bounds_enforced (New 21) 20 true)) H21)).
Defined.

(** C7, at the input of a slice [b] of 2^32 zero bytes and [length = 8].
    The claim says that [NewBytes] fails only when
    [len(b) < ceil(length/8)]; here one byte is needed and the slice has
    2^32. [uint32(len(b))] is 0, which is below 1, and [NewBytes] panics. *)
Theorem C7_NewBytes_rejects_large_slice :
  ceil8 8 <= Z.of_nat (length (replicate (Z.to_nat (2 ^ 32)) 0)) /\
  NewBytes (replicate (Z.to_nat (2 ^ 32)) 0) 8 =
    (replicate (Z.to_nat (2 ^ 32)) 0, Panic NotEnoughBytes).
Proof.
  split.
  - rewrite length_replicate, Z2Nat.id by lia. apply Z.leb_le. reflexivity.
  - apply NewBytes_panics; [unfold is_u32; lia|].
    rewrite length_replicate, Z2Nat.id by lia. reflexivity.
Qed.

(** C8. The scenario of length 20 with the bits 0, 7, 8 and 19 set: no call
    panics, [Hex] is "818010", [Count] is 4, [All] is false, [FirstSet(1)]
    is (7, true) and [FirstClear(0)] is (1, true). *)
Theorem C8_scenario_20 :
  snd (run (New 20) [CallSet 0; CallSet 7; CallSet 8; CallSet 19]) = Ok tt /\
  Hex (fst (run (New 20) [CallSet 0; CallSet 7; CallSet 8; CallSet 19]))
    = "818010"%string /\
  Count (fst (run (New 20) [CallSet 0; CallSet 7; CallSet 8; CallSet 19])) = 4 /\
  All (fst (run (New 20) [CallSet 0; CallSet 7; CallSet 8; CallSet 19])) = false /\
  FirstSet (fst (run (New 20) [CallSet 0; CallSet 7; CallSet 8; CallSet 19])) 1
    = Some (Ok (7, true)) /\
  FirstClear (fst (run (New 20) [CallSet 0; CallSet 7; CallSet 8; CallSet 19])) 0
    = Some (Ok (1, true)).
Proof. repeat split. Qed.

(** C9, at the input of a slice [b] of 2^32 bytes [0xff] and
    [length = 12]. The claim says that [NewBytes] clears the low-order 4
    bits of [b[len(b)-1]]: the slice is longer than the 2 bytes needed and
    12 is not a multiple of 8. [uint32(len(b))] is 0, which is below 2:
    [NewBytes] panics with "not enough bytes" before it writes, and the
    last byte of [b] is still [0xff]. *)
Theorem C9_NewBytes_large_slice_not_masked :
  ceil8 12 < Z.of_nat (length (replicate (Z.to_nat (2 ^ 32)) 255)) /\
  12 mod 8 <> 0 /\
  snd (NewBytes (replicate (Z.to_nat (2 ^ 32)) 255) 12) = Panic NotEnoughBytes /\
  fst (NewBytes (replicate (Z.to_nat (2 ^ 32)) 255) 12)
    !! (length (replicate (Z.to_nat (2 ^ 32)) 255) - 1)%nat = Some 255 /\
  ~ low_bits_zero (8 - 12 mod 8) 255.
Proof.
  assert (Hp : NewBytes (replicate (Z.to_nat (2 ^ 32)) 255) 12 =
               (replicate (Z.to_nat (2 ^ 32)) 255, Panic NotEnoughBytes)).
  { apply NewBytes_panics; [unfold is_u32; lia|].
    rewrite length_replicate, Z2Nat.id by lia. reflexivity. }
  rewrite Hp. cbv [fst snd].
  split; [rewrite length_replicate, Z2Nat.id by lia; reflexivity|].
  split; [discriminate|]. split; [reflexivity|]. split.
  - apply lookup_replicate_2. rewrite length_replicate. lia.
  - intros H. specialize (H 0 ltac:(change (0 <= 0 < 4); lia)). discriminate H.
Qed.

(** C10. For every container and valid indices [i] and [j <> i]:
    [Test(j)] answers after [Set(i)] and after [Clear(i)] what it answered
    before, and [Len()] and the number of bytes of the buffer are
    unchanged; in a container that satisfies I1 neither call panics and
    [Test(j)] returns a value. *)
Theorem C10_Set_Clear_frame (bf : Bitfield) (i j : Z) :
  0 <= i < Len bf -> 0 <= j < Len bf -> j <> i ->
  Test (fst (Set_ bf i)) j = Test bf j /\
  Test (fst (Clear bf i)) j = Test bf j /\
  Len (fst (Set_ bf i)) = Len bf /\ Len (fst (Clear bf i)) = Len bf /\
  length (Bytes (fst (Set_ bf i))) = length (Bytes bf) /\
  length (Bytes (fst (Clear bf i))) = length (Bytes bf) /\
  (I1 bf ->
     snd (Set_ bf i) = Ok tt /\ snd (Clear bf i) = Ok tt /\
     exists t, Test bf j = Ok t).
Proof.
  intros Hi Hj Hne.
  assert (Hij : (i =? j) = false) by (apply Z.eqb_neq; lia).
  split; [|split].
  - rewrite Test_Set, Hij by assumption.
    destruct (Test bf j); [rewrite orb_false_r|]; reflexivity.
  - rewrite Test_Clear, Hij by assumption.
    destruct (Test bf j); [rewrite andb_true_r|]; reflexivity.
  - split; [apply Len_Set|]. split; [apply Len_Clear|].
    unfold Bytes, elems. rewrite !length_take.
    rewrite slen_Set, slen_Clear, backing_length_Set, backing_length_Clear.
    split; [reflexivity|]. split; [reflexivity|].
    intros HI. split; [apply Set_ok; assumption|].
    split; [apply Clear_ok; assumption|apply Test_ok; assumption].
Qed.

Lemma C10_Set_Clear_frame_witness :
  0 <= 3 < Len (fst (Set_ (New 20) 12)) /\
  0 <= 12 < Len (fst (Set_ (New 20) 12)) /\ 12 <> 3 /\
  I1 (fst (Set_ (New 20) 12)) /\
  Test (fst (Clear (fst (Set_ (New 20) 12)) 3)) 12 = Ok true /\
  snd (Clear (fst (Set_ (New 20) 12)) 3) = Ok tt.
Proof.
  assert (HI : I1 (fst (Set_ (New 20) 12))) by (split; [reflexivity|vm_compute; lia]).
  assert (H3 : 0 <= 3 < Len (fst (Set_ (New 20) 12))) by (change (0 <= 3 < 20); lia).
  assert (H12 : 0 <= 12 < Len (fst (Set_ (New 20) 12))) by (change (0 <= 12 < 20); lia).
  assert (Hne : 12 <> 3) by lia.
  split; [exact H3|]. split; [exact H12|]. split; [exact Hne|]. split; [exact HI|].
  destruct (C10_Set_Clear_frame (fst (Set_ (New 20) 12)) 3 12 H3 H12 Hne)
    as (_ & Hc & _ & _ & _ & _ & Hok).
  split; [rewrite Hc; reflexivity|]. exact (proj1 (proj2 (Hok HI))).
Defined.

(** * More properties of the code *)

(** ** Two calls in a row *)

Section Calls.

Implicit Types (bf : Bitfield) (c : call).

Lemma do_call_in bf c :
  0 <= call_index c < Len bf ->
  do_call bf c =
    match index (bf_b bf) (call_index c / 8) with
    | None => (bf, Panic RuntimeIndexOutOfRange)
    | Some v =>
        (mkBitfield (store (bf_b bf) (call_index c / 8) (call_byte c v))
                    (bf_length bf), Ok tt)
    end.
Proof.
  intros Hi. destruct c as [i|i|i [|]]; simpl in *;
    rewrite ?SetTo_in by exact Hi;
    first [apply Set_in | apply Clear_in]; exact Hi.
Qed.

(** The bits of the byte a call writes. *)
Lemma testbit_call_byte c (v n : Z) :
  0 <= n ->
  Z.testbit (call_byte c v) n =
    match c with
    | CallSet i | CallSetTo i true =>
        Z.testbit v n || (7 - i mod 8 =? n)
    | CallClear i | CallSetTo i false =>
        Z.testbit v n && negb (7 - i mod 8 =? n) && (n <? 8)
    end.
Proof.
  intros Hn.
  assert (Hset : forall i, Z.testbit (Z.lor v (2 ^ (7 - i mod 8))) n
                           = Z.testbit v n || (7 - i mod 8 =? n)).
  { intros i. pose proof (mod8_range i). apply testbit_lor_pow2; lia. }
  assert (Hclr : forall i, Z.testbit (Z.land v (not8 (2 ^ (7 - i mod 8)))) n
                 = Z.testbit v n && negb (7 - i mod 8 =? n) && (n <? 8)).
  { intros i. pose proof (mod8_range i).
    rewrite Z.land_spec, testbit_not8, Z.pow2_bits_eqb by lia.
    destruct (Z.testbit v n), (Z.eqb_spec (7 - i mod 8) n), (Z.ltb_spec n 8);
      simpl; try reflexivity; lia. }
  destruct c as [i|i|i [|]]; simpl; auto.
Qed.

(** At one index the later call decides the byte. *)
Lemma call_byte_same c1 c2 (v : Z) :
  is_byte v -> call_index c1 = call_index c2 ->
  call_byte c2 (call_byte c1 v) = call_byte c2 v.
Proof.
  intros Hv Heq. apply Z.bits_inj'. intros n Hn.
  rewrite (testbit_call_byte c2 (call_byte c1 v)), (testbit_call_byte c2 v) by exact Hn.
  rewrite (testbit_call_byte c1 v) by exact Hn.
  assert (Hhi : (n <? 8) = false -> Z.testbit v n = false).
  { intros Hge. apply Z.ltb_ge in Hge. apply is_byte_testbit_high; assumption. }
  destruct c1 as [i|i|i [|]], c2 as [j|j|j [|]]; simpl in Heq; subst;
    destruct (Z.testbit v n), (7 - j mod 8 =? n), (n <? 8);
    try reflexivity; discriminate (Hhi eq_refl).
Qed.

(** At two indices of one byte the calls can be swapped. *)
Lemma call_byte_swap c1 c2 (v : Z) :
  call_index c1 mod 8 <> call_index c2 mod 8 ->
  call_byte c2 (call_byte c1 v) = call_byte c1 (call_byte c2 v).
Proof.
  intros Hne. apply Z.bits_inj'. intros n Hn.
  rewrite (testbit_call_byte c2 (call_byte c1 v)), (testbit_call_byte c1 v) by exact Hn.
  rewrite (testbit_call_byte c1 (call_byte c2 v)), (testbit_call_byte c2 v) by exact Hn.
  destruct c1 as [i|i|i [|]], c2 as [j|j|j [|]]; simpl in Hne;
    pose proof (mod8_range i); pose proof (mod8_range j);
    destruct (Z.testbit v n), (Z.eqb_spec (7 - i mod 8) n),
      (Z.eqb_spec (7 - j mod 8) n), (Z.ltb_spec n 8); try reflexivity; lia.
Qed.

Lemma store_store_eq (s : slice) (k v w : Z) :
  store (store s k v) k w = store s k w.
Proof. unfold store. simpl. rewrite list_insert_insert_eq. reflexivity. Qed.

Lemma store_store_ne (s : slice) (k1 k2 v w : Z) :
  0 <= k1 -> 0 <= k2 -> k1 <> k2 ->
  store (store s k1 v) k2 w = store (store s k2 w) k1 v.
Proof.
  intros H1 H2 Hne. unfold store. simpl. f_equal.
  apply list_insert_insert_ne. lia.
Qed.

(** X4. Of two calls ([Set], [Clear] or [SetTo]) at one valid index the
    later one decides: the container after both is the container after the
    second alone. So [Set] and [Clear] are idempotent and each undoes the
    other's bit. *)
Theorem X4_later_call_wins bf c1 c2 :
  Forall is_byte (Bytes bf) ->
  0 <= call_index c1 < Len bf -> call_index c1 = call_index c2 ->
  fst (do_call (fst (do_call bf c1)) c2) = fst (do_call bf c2).
Proof.
  intros Hbytes Hi Heq.
  rewrite (do_call_in (fst (do_call bf c1)) c2)
    by (rewrite Len_do_call, <- Heq; exact Hi).
  rewrite (do_call_in bf c1 Hi), (do_call_in bf c2) by (rewrite <- Heq; exact Hi).
  rewrite <- Heq.
  destruct (index (bf_b bf) (call_index c1 / 8)) as [v|] eqn:Hv; simpl.
  - rewrite (index_store_eq _ _ _ _ Hv). simpl.
    rewrite store_store_eq, (call_byte_same c1 c2 v (index_is_byte bf _ v Hbytes Hv) Heq).
    reflexivity.
  - rewrite Hv. reflexivity.
Qed.

(** X5. Two calls at different valid indices commute: the container is
    the same in either order, also when both indices fall in one byte. *)
Theorem X5_calls_commute bf c1 c2 :
  0 <= call_index c1 < Len bf -> 0 <= call_index c2 < Len bf ->
  call_index c1 <> call_index c2 ->
  fst (do_call (fst (do_call bf c1)) c2) = fst (do_call (fst (do_call bf c2)) c1).
Proof.
  intros H1 H2 Hne.
  rewrite (do_call_in (fst (do_call bf c1)) c2) by (rewrite Len_do_call; exact H2).
  rewrite (do_call_in (fst (do_call bf c2)) c1) by (rewrite Len_do_call; exact H1).
  rewrite (do_call_in bf c1 H1), (do_call_in bf c2 H2).
  pose proof (div8_nonneg _ (proj1 H1)) as Hd1.
  pose proof (div8_nonneg _ (proj1 H2)) as Hd2.
  destruct (Z.eq_dec (call_index c1 / 8) (call_index c2 / 8)) as [Hd|Hd].
  - assert (Hm : call_index c1 mod 8 <> call_index c2 mod 8).
    { pose proof (Z.div_mod (call_index c1) 8).
      pose proof (Z.div_mod (call_index c2) 8). lia. }
    rewrite <- Hd.
    destruct (index (bf_b bf) (call_index c1 / 8)) as [v|] eqn:Hv; simpl.
    + rewrite !(index_store_eq _ _ _ _ Hv). simpl.
      rewrite !store_store_eq, (call_byte_swap c1 c2 v Hm). reflexivity.
    + rewrite Hv. reflexivity.
  - destruct (index (bf_b bf) (call_index c1 / 8)) as [v|] eqn:Hv,
             (index (bf_b bf) (call_index c2 / 8)) as [w|] eqn:Hw; simpl.
    + rewrite index_store_ne, Hw by (try assumption).
      rewrite index_store_ne, Hv by (try assumption; congruence). simpl.
      rewrite store_store_ne by assumption. reflexivity.
    + rewrite index_store_ne, Hw by (try assumption). simpl. rewrite Hv. reflexivity.
    + rewrite Hw. simpl. rewrite index_store_ne, Hv by (try assumption; congruence).
      reflexivity.
    + rewrite Hw, Hv. reflexivity.
Qed.

(** No call writes outside the container's slice or resizes the array. *)
Lemma do_call_outside bf c (k : nat) :
  (slen (bf_b bf) <= k)%nat ->
  backing (bf_b (fst (do_call bf c))) !! k = backing (bf_b bf) !! k.
Proof.
  intros Hk.
  assert (Hst : forall d w v, index (bf_b bf) d = Some v ->
            backing (store (bf_b bf) d w) !! k = backing (bf_b bf) !! k).
  { intros d w v Hv. apply index_Some in Hv as [Hd _]. unfold store. simpl.
    apply list_lookup_insert_ne. lia. }
  assert (HS : forall i, backing (bf_b (fst (Set_ bf i))) !! k = backing (bf_b bf) !! k).
  { intros i. unfold Set_. destruct (checkIndex bf i); [|reflexivity].
    unfold divMod32. destruct (index (bf_b bf) (i / 8)) eqn:Hv; [|reflexivity].
    simpl. eapply Hst, Hv. }
  assert (HC : forall i, backing (bf_b (fst (Clear bf i))) !! k = backing (bf_b bf) !! k).
  { intros i. unfold Clear. destruct (checkIndex bf i); [|reflexivity].
    unfold divMod32. destruct (index (bf_b bf) (i / 8)) eqn:Hv; [|reflexivity].
    simpl. eapply Hst, Hv. }
  destruct c as [i|i|i value]; simpl; auto.
  unfold SetTo. destruct (checkIndex bf i); [|reflexivity].
  destruct value; auto.
Qed.

Lemma backing_length_do_call bf c :
  length (backing (bf_b (fst (do_call bf c)))) = length (backing (bf_b bf)).
Proof.
  destruct c as [i|i|i value]; simpl;
    [apply backing_length_Set|apply backing_length_Clear|].
  unfold SetTo. destruct (checkIndex bf i); [|reflexivity].
  destruct value; [apply backing_length_Set|apply backing_length_Clear].
Qed.

End Calls.

(** ** Counting, again *)

Section Census.

Implicit Types (bf : Bitfield) (f g : nat -> bool).

Lemma count_all f (l : list nat) :
  length (List.filter f l) = length l <-> (forall x, In x l -> f x = true).
Proof.
  induction l as [|x l IH]; simpl.
  - split; [intros _ y []|reflexivity].
  - pose proof (List.filter_length_le f l) as Hle.
    destruct (f x) eqn:Hx; simpl.
    + split.
      * intros H y [<-|Hy]; [exact Hx|]. apply IH; [lia|exact Hy].
      * intros H. f_equal. apply IH. intros y Hy. apply H. right. exact Hy.
    + split; [lia|]. intros H. rewrite (H x) in Hx by (left; reflexivity).
      discriminate.
Qed.

Lemma count_zero f (l : list nat) :
  length (List.filter f l) = O <-> (forall x, In x l -> f x = false).
Proof.
  split.
  - induction l as [|x l IH]; simpl; [intros _ y []|].
    destruct (f x) eqn:Hx; simpl; [discriminate|].
    intros H y [<-|Hy]; [exact Hx|]. apply IH; assumption.
  - intros H. rewrite count_none by exact H. reflexivity.
Qed.

(** Changing a predicate at one place [a] of [0, n). *)
Lemma count_change f g (a n : nat) :
  (a < n)%nat -> (forall j, (j < n)%nat -> j <> a -> g j = f j) ->
  Z.of_nat (length (List.filter g (seq 0 n))) - Z.b2z (g a)
  = Z.of_nat (length (List.filter f (seq 0 n))) - Z.b2z (f a).
Proof.
  intros Ha Hsame.
  replace n with (a + S (n - S a))%nat by lia.
  rewrite seq_app. cbn [seq]. rewrite !List.filter_app, !length_app, !Nat2Z.inj_add.
  rewrite !count_cons.
  rewrite (List.filter_ext_in g f (seq 0 a)).
  2:{ intros j Hj. apply in_seq in Hj. apply Hsame; lia. }
  rewrite (List.filter_ext_in g f (seq (S (0 + a)) (n - S a))).
  2:{ intros j Hj. apply in_seq in Hj. apply Hsame; lia. }
  simpl. lia.
Qed.

Lemma tests_true_Ok bf (i : Z) (t : bool) :
  Test bf i = Ok t -> tests_true bf i = t.
Proof. intros H. unfold tests_true. rewrite H. destruct t; reflexivity. Qed.

Lemma Count_as_length bf :
  wf bf ->
  Count bf = Z.of_nat (length (List.filter
    (fun i : nat => tests_true bf (Z.of_nat i)) (seq 0 (Z.to_nat (Len bf))))).
Proof. intros Hwf. rewrite (Count_wf bf Hwf). reflexivity. Qed.

(** [Count] stays within the length. *)
Lemma Count_range bf : wf bf -> 0 <= Count bf <= Len bf.
Proof.
  intros Hwf. rewrite (Count_as_length bf Hwf).
  pose proof (List.filter_length_le
    (fun i : nat => tests_true bf (Z.of_nat i)) (seq 0 (Z.to_nat (Len bf)))) as H.
  rewrite length_seq in H. destruct Hwf as (_ & HL & _). unfold Len, is_u32 in *. lia.
Qed.

(** [All] is true exactly when every bit inside the length is set. *)
Lemma All_iff bf :
  wf bf ->
  (All bf = true <-> forall i, 0 <= i < Len bf -> Test bf i = Ok true).
Proof.
  intros Hwf. pose proof Hwf as (HI & HL & _).
  unfold All. rewrite Z.eqb_eq, (Count_as_length bf Hwf).
  fold (Len bf).
  assert (Hlen : Len bf = Z.of_nat (length (seq 0 (Z.to_nat (Len bf)))))
    by (rewrite length_seq; unfold Len, is_u32 in *; lia).
  rewrite Hlen at 2. rewrite Nat2Z.inj_iff, count_all. split.
  - intros H i Hi. specialize (H (Z.to_nat i)).
    rewrite Z2Nat.id in H by lia.
    destruct (Test_ok bf i HI Hi) as [t Ht].
    rewrite (tests_true_Ok bf i t Ht) in H. rewrite Ht. f_equal.
    apply H, in_seq. lia.
  - intros H n Hn. apply in_seq in Hn.
    apply tests_true_Ok, H. lia.
Qed.

(** [Count] is 0 exactly when no bit inside the length is set. *)
Lemma Count_zero_iff bf :
  wf bf ->
  (Count bf = 0 <-> forall i, 0 <= i < Len bf -> Test bf i = Ok false).
Proof.
  intros Hwf. pose proof Hwf as (HI & HL & _).
  rewrite (Count_as_length bf Hwf).
  change 0 with (Z.of_nat O) at 1. rewrite Nat2Z.inj_iff, count_zero. split.
  - intros H i Hi. specialize (H (Z.to_nat i)).
    rewrite Z2Nat.id in H by lia.
    destruct (Test_ok bf i HI Hi) as [t Ht].
    rewrite (tests_true_Ok bf i t Ht) in H. rewrite Ht. f_equal.
    apply H, in_seq. lia.
  - intros H n Hn. apply in_seq in Hn.
    apply tests_true_Ok, H. lia.
Qed.

(** What a call at a valid index does to [Count]. *)
Lemma Count_do_call bf (c : call) :
  wf bf -> 0 <= call_index c < Len bf ->
  Count (fst (do_call bf c)) - Z.b2z (tests_true (fst (do_call bf c)) (call_index c))
  = Count bf - Z.b2z (tests_true bf (call_index c)).
Proof.
  intros Hwf Hi. pose proof (wf_do_call bf c Hwf Hi) as Hwf'.
  rewrite (Count_as_length _ Hwf'), (Count_as_length _ Hwf), Len_do_call.
  pose proof Hwf as (_ & HL & _). unfold Len, is_u32 in *.
  pose proof (count_change
    (fun i : nat => tests_true bf (Z.of_nat i))
    (fun i : nat => tests_true (fst (do_call bf c)) (Z.of_nat i))
    (Z.to_nat (call_index c)) (Z.to_nat (bf_length bf))) as Hcc.
  cbv beta in Hcc. rewrite Z2Nat.id in Hcc by lia. apply Hcc.
  - lia.
  - intros j Hj Hne. unfold tests_true. f_equal.
    assert (Hjr : 0 <= Z.of_nat j < Len bf) by (unfold Len; lia).
    assert (Hij : (call_index c =? Z.of_nat j) = false) by (apply Z.eqb_neq; lia).
    destruct c as [i|i|i [|]]; simpl in *; rewrite ?SetTo_in by exact Hi;
      first [rewrite Test_Set by assumption | rewrite Test_Clear by assumption];
      rewrite Hij; destruct (Test bf (Z.of_nat j));
      rewrite ?orb_false_r, ?andb_true_r; reflexivity.
Qed.

End Census.

(** ** [ClearAll], [New], [NewBytes] and [Hex], again *)

Section Whole.

Implicit Types (bf : Bitfield) (b : list Z).

Lemma popsum_zeros (n : nat) : popsum (replicate n 0) = 0.
Proof. induction n as [|n IH]; simpl; [reflexivity|]. rewrite IH. reflexivity. Qed.

Lemma Count_zeros bf (n : nat) : Bytes bf = replicate n 0 -> Count bf = 0.
Proof.
  intros HB. unfold Count. fold (Bytes bf). rewrite HB.
  rewrite Count_loop; rewrite ?popsum_zeros; try lia.
  apply Forall_replicate. unfold is_byte. lia.
Qed.

Lemma Test_zeros bf (n : nat) (i : Z) :
  I1 bf -> Bytes bf = replicate n 0 -> 0 <= i < Len bf -> Test bf i = Ok false.
Proof.
  intros HI HB Hi. destruct (I1_index bf i HI Hi) as [v Hv].
  rewrite Test_in, Hv by exact Hi.
  rewrite index_elems in Hv by (apply Z.div_pos; lia).
  fold (Bytes bf) in Hv. rewrite HB in Hv.
  apply lookup_replicate_1 in Hv as [-> _]. rewrite Z.bits_0. reflexivity.
Qed.

Lemma ClearAll_I1 bf : I1 bf -> I1 (ClearAll bf).
Proof.
  intros [Hn Hle]. destruct (ClearAll_Bytes bf Hle) as (_ & Hs & Hlen & HLen).
  unfold Len in HLen. split; [rewrite Hs, HLen; exact Hn|rewrite Hs, Hlen; exact Hle].
Qed.

Lemma ClearAll_outside bf (k : nat) :
  (slen (bf_b bf) <= length (backing (bf_b bf)))%nat ->
  (slen (bf_b bf) <= k)%nat ->
  backing (bf_b (ClearAll bf)) !! k = backing (bf_b bf) !! k.
Proof.
  intros Hle Hk. destruct (ClearAll_loop (slen (bf_b bf)) (bf_b bf) Hle) as [_ Hb].
  unfold ClearAll. simpl. rewrite Hb.
  rewrite lookup_app_r by (rewrite length_replicate; exact Hk).
  rewrite length_replicate, lookup_drop. f_equal. lia.
Qed.

(** X12. For every slice and length, [NewBytes] keeps the length of the
    caller's slice, changes no byte but the last one, sets no bit of the
    last byte that was clear, and leaves the slice as it was when it
    panics. *)
Theorem X12_NewBytes_only_clears_last_byte b (L : Z) :
  length (fst (NewBytes b L)) = length b /\
  (forall k, k <> (length b - 1)%nat -> fst (NewBytes b L) !! k = b !! k) /\
  (forall v v' n, b !! (length b - 1)%nat = Some v ->
     fst (NewBytes b L) !! (length b - 1)%nat = Some v' ->
     0 <= n -> Z.testbit v' n = true -> Z.testbit v n = true) /\
  (forall p, snd (NewBytes b L) = Panic p -> fst (NewBytes b L) = b).
Proof.
  unfold NewBytes. destruct (calcSize L) as [nBytes nLastBits].
  assert (Hsame : forall r : result Bitfield,
    length (fst (b, r)) = length b /\
    (forall k, k <> (length b - 1)%nat -> fst (b, r) !! k = b !! k) /\
    (forall v v' n, b !! (length b - 1)%nat = Some v ->
       fst (b, r) !! (length b - 1)%nat = Some v' ->
       0 <= n -> Z.testbit v' n = true -> Z.testbit v n = true) /\
    (forall p, snd (b, r) = Panic p -> fst (b, r) = b)).
  { intros r. simpl. repeat split; try reflexivity.
    intros v v' n Hv Hv'. congruence. }
  destruct (u32 (Z.of_nat (length b)) <? nBytes); [apply Hsame|].
  destruct (negb (nLastBits =? 0)); [|apply Hsame].
  destruct (index (mkSlice b (length b)) (Z.of_nat (length b) - 1)) as [u|] eqn:Hu;
    [|apply Hsame].
  apply index_Some in Hu as [Hr Hu]. simpl in Hr, Hu.
  replace (Z.to_nat (Z.of_nat (length b) - 1)) with (length b - 1)%nat in * by lia.
  simpl. split; [apply length_insert|]. split; [|split].
  - intros k Hk. apply list_lookup_insert_ne. lia.
  - intros v v' n Hv Hv' Hn Hbit.
    rewrite list_lookup_insert_eq in Hv' by lia.
    injection Hv' as <-. rewrite Hu in Hv. injection Hv as <-.
    rewrite Z.land_spec in Hbit. apply andb_true_iff in Hbit. apply Hbit.
  - intros p Hp. discriminate Hp.
Qed.

Lemma bit_at_Z b (i : Z) :
  0 <= i ->
  bit_at b (Z.to_nat i) =
    match b !! Z.to_nat (i / 8) with
    | Some v => Z.testbit v (7 - i mod 8)
    | None => false
    end.
Proof.
  intros Hi. unfold bit_at.
  replace (Z.to_nat i / 8)%nat with (Z.to_nat (i / 8))
    by (rewrite Z2Nat.inj_div by lia; reflexivity).
  replace (Z.of_nat (Z.to_nat i mod 8)) with (i mod 8)
    by (rewrite Nat2Z.inj_mod, Z2Nat.id by lia; reflexivity).
  reflexivity.
Qed.

(** The bits that [NewBytes] imports are the bits of the slice, the most
    significant bit of a byte first. *)
Lemma NewBytes_reads_back b (L : Z) :
  is_u32 L -> ceil8 L <= u32 (Z.of_nat (length b)) ->
  exists bf, snd (NewBytes b L) = Ok bf /\ Len bf = L /\ I1 bf /\
    forall i, 0 <= i < L -> Test bf i = Ok (bit_at b (Z.to_nat i)).
Proof.
  intros HL Hge.
  pose proof (u32_le (Z.of_nat (length b)) ltac:(lia)) as Hule.
  pose proof (ceil8_nonneg L ltac:(apply HL)) as Hc.
  assert (Hbit : forall (b' : list Z) i, 0 <= i < L ->
    (forall v, b !! Z.to_nat (i / 8) = Some v ->
       exists v', b' !! Z.to_nat (i / 8) = Some v' /\
                  Z.testbit v' (7 - i mod 8) = Z.testbit v (7 - i mod 8)) ->
    length b' = length b ->
    Test (mkBitfield (mkSlice b' (Z.to_nat (ceil8 L))) L) i
    = Ok (bit_at b (Z.to_nat i))).
  { intros b' i Hi Hsame Hlen. rewrite Test_in by exact Hi. simpl.
    assert (Hi8 : 0 <= i / 8 < ceil8 L).
    { split; [apply Z.div_pos; lia|]. unfold ceil8.
      apply Z.div_lt_upper_bound; [lia|].
      pose proof (Z.mul_div_le (L + 7) 8). pose proof (Z.mod_pos_bound (L + 7) 8).
      pose proof (Z.div_mod (L + 7) 8). lia. }
    destruct (lookup_lt_is_Some_2 b (Z.to_nat (i / 8))) as [v Hv]; [lia|].
    destruct (Hsame v Hv) as (v' & Hv' & Hbits).
    unfold index. simpl.
    replace (0 <=? i / 8) with true by (symmetry; apply Z.leb_le; lia).
    replace (i / 8 <? Z.of_nat (Z.to_nat (ceil8 L))) with true
      by (symmetry; apply Z.ltb_lt; lia).
    simpl. rewrite Hv', Hbits, bit_at_Z, Hv by lia. reflexivity. }
  destruct (Z.eq_dec (L mod 8) 0) as [Hz|Hnz].
  - rewrite NewBytes_whole by assumption. simpl. eexists.
    split; [reflexivity|]. split; [reflexivity|]. split.
    + split; simpl; lia.
    + intros i Hi. apply Hbit; [exact Hi| |reflexivity]. intros v Hv. eauto.
  - destruct (NewBytes_partial b L HL Hnz Hge) as (u & Hu & Heq).
    cbv zeta in Heq. rewrite Heq. simpl. eexists.
    split; [reflexivity|]. split; [reflexivity|]. split.
    + split; simpl; [lia|rewrite length_insert; lia].
    + intros i Hi. apply Hbit; [exact Hi| |apply length_insert].
      intros v Hv.
      destruct (Nat.eq_dec (Z.to_nat (i / 8)) (length b - 1)%nat) as [Hlast|Hother].
      * rewrite Hlast in *. rewrite Hu in Hv. injection Hv as <-.
        eexists. split.
        -- apply list_lookup_insert_eq. apply lookup_lt_Some in Hu. exact Hu.
        -- pose proof (mod8_range i). pose proof (mod8_range L).
           rewrite testbit_tail_mask by lia.
           replace (8 - L mod 8 <=? 7 - i mod 8) with true; [apply andb_true_r|].
           symmetry. apply Z.leb_le.
           assert (Hi8 : i / 8 = Z.of_nat (length b) - 1).
           { pose proof (Z.div_pos i 8). apply lookup_lt_Some in Hu. lia. }
           rewrite ceil8_partial in Hge by exact Hnz.
           assert (HL8 : L / 8 <= i / 8) by lia.
           pose proof (Z.div_le_mono i L 8).
           pose proof (Z.div_mod i 8). pose proof (Z.div_mod L 8). lia.
      * exists v. split; [|reflexivity].
        rewrite list_lookup_insert_ne by lia. exact Hv.
Qed.

(** [hex.EncodeToString] on bytes. *)
Lemma hexDigit_inj (x y : Z) :
  0 <= x < 16 -> 0 <= y < 16 -> hexDigit x = hexDigit y -> x = y.
Proof.
  intros Hx Hy Heq.
  assert (Hall : forallb (fun p : nat =>
      forallb (fun q : nat =>
        implb (Ascii.eqb (hexDigit (Z.of_nat p)) (hexDigit (Z.of_nat q)))
              (Nat.eqb p q)) (seq 0 16)) (seq 0 16) = true)
    by (vm_compute; reflexivity).
  rewrite forallb_forall in Hall.
  specialize (Hall (Z.to_nat x) ltac:(apply in_seq; lia)).
  rewrite forallb_forall in Hall.
  specialize (Hall (Z.to_nat y) ltac:(apply in_seq; lia)).
  rewrite !Z2Nat.id, Heq, Ascii.eqb_refl in Hall by lia. simpl in Hall.
  apply Nat.eqb_eq in Hall. lia.
Qed.

Lemma byte_nibbles (v : Z) :
  is_byte v ->
  0 <= Z.shiftr v 4 < 16 /\ 0 <= Z.land v 15 < 16 /\
  v = 16 * Z.shiftr v 4 + Z.land v 15.
Proof.
  unfold is_byte. intros Hv.
  rewrite Z.shiftr_div_pow2 by lia. change 15 with (Z.ones 4).
  rewrite Z.land_ones by lia. change (2 ^ 4) with 16.
  pose proof (Z.div_mod v 16). pose proof (Z.mod_pos_bound v 16).
  split; [|split]; lia.
Qed.

Lemma EncodeToString_length (l : list Z) :
  String.length (EncodeToString l) = (2 * length l)%nat.
Proof. induction l as [|v l IH]; simpl; [reflexivity|]. rewrite IH. lia. Qed.

Lemma EncodeToString_inj (l1 : list Z) :
  forall l2, Forall is_byte l1 -> Forall is_byte l2 ->
  EncodeToString l1 = EncodeToString l2 -> l1 = l2.
Proof.
  induction l1 as [|v l1 IH]; intros [|w l2] H1 H2 Heq; simpl in Heq;
    try discriminate; [reflexivity|].
  apply Forall_cons_1 in H1 as [Hv H1]. apply Forall_cons_1 in H2 as [Hw H2].
  injection Heq as Hhi Hlo Hrest.
  destruct (byte_nibbles v Hv) as (Hv1 & Hv2 & Hveq).
  destruct (byte_nibbles w Hw) as (Hw1 & Hw2 & Hweq).
  apply hexDigit_inj in Hhi; [|assumption..].
  apply hexDigit_inj in Hlo; [|assumption..].
  f_equal; [lia|]. apply IH; assumption.
Qed.

End Whole.

(** ** Properties *)

(** X1. For every [uint32] length, [calcSize] returns ceil(length/8) and
    length mod 8: the increment of the byte count never wraps around, the
    count fits a [uint32] and the bit count is below 8. *)
Theorem X1_calcSize_exact (L : Z) :
  is_u32 L ->
  calcSize L = (ceil8 L, L mod 8) /\
  is_u32 (fst (calcSize L)) /\ 0 <= snd (calcSize L) < 8.
Proof.
  intros HL. rewrite calcSize_eq by exact HL. simpl.
  split; [reflexivity|]. split; [|apply mod8_range].
  unfold is_u32, ceil8 in *.
  split; [apply Z.div_pos; lia|apply Z.div_lt_upper_bound; lia].
Qed.

Lemma X1_calcSize_exact_witness :
  is_u32 4294967295 /\ calcSize 4294967295 = (536870912, 7).
Proof.
  assert (HL : is_u32 4294967295) by (unfold is_u32; lia).
  split; [exact HL|]. exact (proj1 (X1_calcSize_exact 4294967295 HL)).
Defined.

(** X2. The table [countCache] has 256 entries and the entry of every byte
    is the number of bits set in it. *)
Theorem X2_countCache_is_popcount (v : Z) :
  length countCache = 256%nat /\
  (is_byte v -> nth (Z.to_nat v) countCache 0 = popcount8 v).
Proof. split; [reflexivity|apply countCache_popcount]. Qed.

Lemma X2_countCache_is_popcount_witness :
  is_byte 129 /\ nth (Z.to_nat 129) countCache 0 = 2.
Proof.
  assert (Hv : is_byte 129) by (unfold is_byte; lia).
  split; [exact Hv|]. exact (proj2 (X2_countCache_is_popcount 129) Hv).
Defined.

(** X3. In a container that satisfies I1, at a valid index: [Test] is true
    after [Set], false after [Clear] and [value] after [SetTo(i, value)]. *)
Theorem X3_Test_after_write (bf : Bitfield) (i : Z) (value : bool) :
  I1 bf -> 0 <= i < Len bf ->
  Test (fst (Set_ bf i)) i = Ok true /\
  Test (fst (Clear bf i)) i = Ok false /\
  Test (fst (SetTo bf i value)) i = Ok value.
Proof.
  intros HI Hi. destruct (Test_ok bf i HI Hi) as [t Ht].
  assert (HS : Test (fst (Set_ bf i)) i = Ok true).
  { rewrite Test_Set, Ht, Z.eqb_refl, orb_true_r by exact Hi. reflexivity. }
  assert (HC : Test (fst (Clear bf i)) i = Ok false).
  { rewrite Test_Clear, Ht, Z.eqb_refl, andb_false_r by exact Hi. reflexivity. }
  split; [exact HS|]. split; [exact HC|].
  rewrite SetTo_in by exact Hi. destruct value; assumption.
Qed.

Lemma X3_Test_after_write_witness :
  I1 (New 20) /\ 0 <= 13 < Len (New 20) /\
  Test (fst (SetTo (New 20) 13 true)) 13 = Ok true.
Proof.
  assert (HI : I1 (New 20)) by (split; [reflexivity|vm_compute; lia]).
  assert (Hi : 0 <= 13 < Len (New 20)) by (change (0 <= 13 < 20); lia).
  split; [exact HI|]. split; [exact Hi|].
  exact (proj2 (proj2 (X3_Test_after_write (New 20) 13 true HI Hi))).
Defined.

Lemma X4_later_call_wins_witness :
  Forall is_byte (Bytes (New 20)) /\ 0 <= call_index (CallSet 9) < Len (New 20) /\
  call_index (CallSet 9) = call_index (CallClear 9) /\
  fst (do_call (fst (do_call (New 20) (CallSet 9))) (CallClear 9)) = New 20.
Proof.
  assert (Hb : Forall is_byte (Bytes (New 20)))
    by (repeat constructor; unfold is_byte; lia).
  assert (Hi : 0 <= call_index (CallSet 9) < Len (New 20)) by (change (0 <= 9 < 20); lia).
  assert (He : call_index (CallSet 9) = call_index (CallClear 9)) by reflexivity.
  split; [exact Hb|]. split; [exact Hi|]. split; [exact He|].
  rewrite (X4_later_call_wins (New 20) (CallSet 9) (CallClear 9) Hb Hi He).
  reflexivity.
Defined.

Lemma X5_calls_commute_witness :
  0 <= call_index (CallSet 9) < Len (New 20) /\
  0 <= call_index (CallClear 10) < Len (New 20) /\
  call_index (CallSet 9) <> call_index (CallClear 10) /\
  Bytes (fst (do_call (fst (do_call (New 20) (CallSet 9))) (CallClear 10)))
  = [0; 64; 0].
Proof.
  assert (H1 : 0 <= call_index (CallSet 9) < Len (New 20)) by (change (0 <= 9 < 20); lia).
  assert (H2 : 0 <= call_index (CallClear 10) < Len (New 20))
    by (change (0 <= 10 < 20); lia).
  assert (Hne : call_index (CallSet 9) <> call_index (CallClear 10)) by discriminate.
  split; [exact H1|]. split; [exact H2|]. split; [exact Hne|].
  rewrite (X5_calls_commute (New 20) (CallSet 9) (CallClear 10) H1 H2 Hne).
  reflexivity.
Defined.

(** X6. [ClearAll] on a container whose slice lies in its array: every
    byte of the buffer is 0, the length and the byte count are unchanged,
    [Count] is 0, the bytes of the array past the slice are untouched,
    and (under I1) [Test] is false at every valid index. *)
Theorem X6_ClearAll_clears (bf : Bitfield) :
  (slen (bf_b bf) <= length (backing (bf_b bf)))%nat ->
  Bytes (ClearAll bf) = replicate (length (Bytes bf)) 0 /\
  Len (ClearAll bf) = Len bf /\
  Count (ClearAll bf) = 0 /\
  (forall k, (slen (bf_b bf) <= k)%nat ->
     backing (bf_b (ClearAll bf)) !! k = backing (bf_b bf) !! k) /\
  (I1 bf -> forall i, 0 <= i < Len bf -> Test (ClearAll bf) i = Ok false).
Proof.
  intros Hle. destruct (ClearAll_Bytes bf Hle) as (HB & Hs & Hlen & HLen).
  assert (Hn : length (Bytes bf) = slen (bf_b bf))
    by (unfold Bytes, elems; rewrite length_take; lia).
  split; [rewrite Hn; exact HB|]. split; [exact HLen|].
  split; [eapply Count_zeros; exact HB|]. split.
  - intros k Hk. apply ClearAll_outside; assumption.
  - intros HI i Hi. eapply Test_zeros; [apply ClearAll_I1, HI|exact HB|].
    rewrite HLen. exact Hi.
Qed.

Lemma X6_ClearAll_clears_witness :
  le (slen (bf_b (mkBitfield (mkSlice [255; 255; 255] 2) 12)))
     (length (backing (bf_b (mkBitfield (mkSlice [255; 255; 255] 2) 12)))) /\
  Bytes (ClearAll (mkBitfield (mkSlice [255; 255; 255] 2) 12)) = [0; 0] /\
  backing (bf_b (ClearAll (mkBitfield (mkSlice [255; 255; 255] 2) 12))) !! 2%nat
  = Some 255.
Proof.
  assert (Hle : le (slen (bf_b (mkBitfield (mkSlice [255; 255; 255] 2) 12)))
     (length (backing (bf_b (mkBitfield (mkSlice [255; 255; 255] 2) 12)))))
    by (simpl; lia).
  split; [exact Hle|].
  destruct (X6_ClearAll_clears _ Hle) as (HB & _ & _ & Hout & _).
  split; [rewrite HB; reflexivity|]. rewrite Hout by (simpl; lia). reflexivity.
Defined.

(** X7. In a well-formed container [Count] lies between 0 and the length,
    and [All] is true exactly when [Test] is true at every index inside
    the length. *)
Theorem X7_All_iff_every_bit_set (bf : Bitfield) :
  wf bf ->
  0 <= Count bf <= Len bf /\
  (All bf = true <-> forall i, 0 <= i < Len bf -> Test bf i = Ok true).
Proof. intros Hwf. split; [apply Count_range|apply All_iff]; exact Hwf. Qed.

Lemma X7_All_iff_every_bit_set_witness :
  wf (fst (run (New 11) [CallSet 3; CallSet 10])) /\
  wf (fst (run (New 3) [CallSet 0; CallSet 1; CallSet 2])) /\
  Count (fst (run (New 11) [CallSet 3; CallSet 10])) = 2 /\
  Test (fst (run (New 11) [CallSet 3; CallSet 10])) 4 = Ok false /\
  All (fst (run (New 11) [CallSet 3; CallSet 10])) = false /\
  All (fst (run (New 3) [CallSet 0; CallSet 1; CallSet 2])) = true.
Proof.
  assert (Hwf11 : wf (fst (run (New 11) [CallSet 3; CallSet 10]))).
  { apply run_wf; [apply New_wf; lia|].
    repeat constructor; change (Len (New 11)) with 11; simpl; lia. }
  assert (Hwf3 : wf (fst (run (New 3) [CallSet 0; CallSet 1; CallSet 2]))).
  { apply run_wf; [apply New_wf; lia|].
    repeat constructor; change (Len (New 3)) with 3; simpl; lia. }
  split; [exact Hwf11|]. split; [exact Hwf3|].
  split; [reflexivity|]. split; [reflexivity|]. split.
  - destruct (All (fst (run (New 11) [CallSet 3; CallSet 10]))) eqn:HAll;
      [|reflexivity].
    pose proof (proj1 (proj2 (X7_All_iff_every_bit_set _ Hwf11)) HAll 4
                  ltac:(change (0 <= 4 < 11); lia)) as Ht.
    discriminate Ht.
  - apply (proj2 (X7_All_iff_every_bit_set _ Hwf3)).
    intros i Hi. change (0 <= i < 3) in Hi.
    assert (Hc : i = 0 \/ i = 1 \/ i = 2) by lia.
    destruct Hc as [->|[->| ->]]; reflexivity.
Defined.

(** X8. In a well-formed container, at a valid index: [Set] raises
    [Count] by 1 when the bit was clear and leaves it when the bit was
    set; [Clear] lowers [Count] by 1 when the bit was set and leaves it
    when the bit was clear. *)
Theorem X8_Count_after_write (bf : Bitfield) (i : Z) (t : bool) :
  wf bf -> 0 <= i < Len bf -> Test bf i = Ok t ->
  Count (fst (Set_ bf i)) = Count bf + (if t then 0 else 1) /\
  Count (fst (Clear bf i)) = Count bf - (if t then 1 else 0).
Proof.
  intros Hwf Hi Ht. pose proof (proj1 Hwf) as HI.
  pose proof (Count_do_call bf (CallSet i) Hwf Hi) as HS.
  pose proof (Count_do_call bf (CallClear i) Hwf Hi) as HC.
  simpl in HS, HC.
  rewrite (tests_true_Ok bf i t Ht) in HS, HC.
  rewrite (tests_true_Ok (fst (Set_ bf i)) i true) in HS
    by (rewrite Test_Set, Ht, Z.eqb_refl, orb_true_r by exact Hi; reflexivity).
  rewrite (tests_true_Ok (fst (Clear bf i)) i false) in HC
    by (rewrite Test_Clear, Ht, Z.eqb_refl, andb_false_r by exact Hi; reflexivity).
  destruct t; simpl in *; lia.
Qed.

Lemma X8_Count_after_write_witness :
  wf (New 20) /\ 0 <= 5 < Len (New 20) /\ Test (New 20) 5 = Ok false /\
  Count (fst (Set_ (New 20) 5)) = 1.
Proof.
  assert (Hwf : wf (New 20)) by (apply New_wf; lia).
  assert (Hi : 0 <= 5 < Len (New 20)) by (change (0 <= 5 < 20); lia).
  assert (Ht : Test (New 20) 5 = Ok false) by reflexivity.
  split; [exact Hwf|]. split; [exact Hi|]. split; [exact Ht|].
  exact (proj1 (X8_Count_after_write (New 20) 5 false Hwf Hi Ht)).
Defined.

(** X9. When the size check of [NewBytes] passes, the container it returns
    has the given length and reads back the bits of the slice: [Test(i)]
    is bit [7 - i mod 8] of byte [i / 8] of [b], for every [i] below the
    length. The masking of the last byte changes none of these bits. *)
Theorem X9_NewBytes_reads_back (b : list Z) (L : Z) :
  is_u32 L -> ceil8 L <= u32 (Z.of_nat (length b)) ->
  exists bf, snd (NewBytes b L) = Ok bf /\ Len bf = L /\
    forall i, 0 <= i < L -> Test bf i = Ok (bit_at b (Z.to_nat i)).
Proof.
  intros HL Hge.
  destruct (NewBytes_reads_back b L HL Hge) as (bf & Hok & HLen & _ & Hbits).
  exists bf. auto.
Qed.

Lemma X9_NewBytes_reads_back_witness :
  is_u32 12 /\ ceil8 12 <= u32 (Z.of_nat (length [165; 255])) /\
  exists bf, snd (NewBytes [165; 255] 12) = Ok bf /\
    Test bf 0 = Ok true /\ Test bf 1 = Ok false /\ Test bf 11 = Ok true.
Proof.
  assert (HL : is_u32 12) by (unfold is_u32; lia).
  assert (Hge : ceil8 12 <= u32 (Z.of_nat (length [165; 255])))
    by (apply Z.leb_le; reflexivity).
  split; [exact HL|]. split; [exact Hge|].
  destruct (X9_NewBytes_reads_back [165; 255] 12 HL Hge) as (bf & Hok & HLen & Hbits).
  exists bf. split; [exact Hok|].
  rewrite !Hbits by lia. repeat split.
Defined.

(** X10. Import of all-ones: for every [uint32] length [L], [NewBytes] on
    exactly ceil(L/8) bytes [0xff] gives a container with [Count() = L]
    and [All() = true]: the stray bits of the last byte are cleared. *)
Theorem X10_NewBytes_all_ones (L : Z) :
  is_u32 L ->
  exists bf, snd (NewBytes (replicate (Z.to_nat (ceil8 L)) 255) L) = Ok bf /\
    Count bf = L /\ All bf = true.
Proof.
  intros HL. pose proof (ceil8_nonneg L ltac:(apply HL)) as Hc.
  set (b := replicate (Z.to_nat (ceil8 L)) 255).
  assert (Hlen : Z.of_nat (length b) = ceil8 L)
    by (unfold b; rewrite length_replicate; lia).
  assert (Hb : Forall is_byte b)
    by (apply Forall_replicate; unfold is_byte; lia).
  destruct (NewBytes_exact_wf b L HL Hb Hlen) as (bf & Hok & Hwf & HLen & _).
  assert (Hu : ceil8 L <= u32 (Z.of_nat (length b))).
  { rewrite u32_small; [lia|]. rewrite Hlen. unfold is_u32, ceil8 in *.
    split; [lia|]. apply Z.div_lt_upper_bound; lia. }
  destruct (NewBytes_reads_back b L HL Hu) as (bf' & Hok' & _ & _ & Hbits).
  rewrite Hok in Hok'. injection Hok' as <-.
  exists bf. split; [exact Hok|].
  assert (HAll : All bf = true).
  { apply All_iff; [exact Hwf|]. rewrite HLen. intros i Hi.
    rewrite Hbits, bit_at_Z by lia. unfold b.
    assert (Hi8 : 0 <= i / 8 < ceil8 L).
    { split; [apply Z.div_pos; lia|]. unfold ceil8.
      apply Z.div_lt_upper_bound; [lia|].
      pose proof (Z.mul_div_le (L + 7) 8). pose proof (Z.mod_pos_bound (L + 7) 8).
      pose proof (Z.div_mod (L + 7) 8). lia. }
    rewrite lookup_replicate_2 by lia.
    pose proof (mod8_range i). rewrite testbit_255 by lia.
    f_equal. apply Z.ltb_lt. lia. }
  split; [|exact HAll]. unfold All in HAll. apply Z.eqb_eq in HAll.
  unfold Len in HLen. lia.
Qed.

Lemma X10_NewBytes_all_ones_witness :
  is_u32 23 /\
  exists bf, snd (NewBytes [255; 255; 255] 23) = Ok bf /\ Count bf = 23 /\ All bf = true.
Proof.
  assert (HL : is_u32 23) by (unfold is_u32; lia).
  split; [exact HL|]. exact (X10_NewBytes_all_ones 23 HL).
Defined.

(** X11. No call ([Set], [Clear], [SetTo], at any index) writes a byte of
    the backing array at or past the end of the container's slice, and no
    call changes the length of the slice or of the array: a container
    made by [NewBytes] from a longer slice leaves the caller's other bytes
    alone. *)
Theorem X11_calls_write_inside_slice (bf : Bitfield) (c : call) (k : nat) :
  (slen (bf_b bf) <= k)%nat ->
  backing (bf_b (fst (do_call bf c))) !! k = backing (bf_b bf) !! k /\
  length (backing (bf_b (fst (do_call bf c)))) = length (backing (bf_b bf)) /\
  slen (bf_b (fst (do_call bf c))) = slen (bf_b bf).
Proof.
  intros Hk. split; [apply do_call_outside; exact Hk|].
  split; [apply backing_length_do_call|].
  destruct c as [i|i|i value]; simpl;
    [apply slen_Set|apply slen_Clear|apply slen_SetTo].
Qed.

Lemma X11_calls_write_inside_slice_witness :
  le (slen (bf_b (mkBitfield (mkSlice [0; 7] 1) 8))) 1 /\
  snd (do_call (mkBitfield (mkSlice [0; 7] 1) 8) (CallSet 7)) = Ok tt /\
  backing (bf_b (fst (do_call (mkBitfield (mkSlice [0; 7] 1) 8) (CallSet 7))))
    !! 1%nat = Some 7.
Proof.
  assert (Hk : le (slen (bf_b (mkBitfield (mkSlice [0; 7] 1) 8))) 1) by (simpl; lia).
  split; [exact Hk|]. split; [reflexivity|].
  rewrite (proj1 (X11_calls_write_inside_slice
    (mkBitfield (mkSlice [0; 7] 1) 8) (CallSet 7) 1 Hk)).
  reflexivity.
Defined.

(** X13. [Hex] has two characters for each byte of the buffer, and two
    buffers of bytes with the same [Hex] are equal. *)
Theorem X13_Hex_length_and_injective (bf1 bf2 : Bitfield) :
  String.length (Hex bf1) = (2 * length (Bytes bf1))%nat /\
  (Forall is_byte (Bytes bf1) -> Forall is_byte (Bytes bf2) ->
   Hex bf1 = Hex bf2 -> Bytes bf1 = Bytes bf2).
Proof.
  split; [apply EncodeToString_length|]. intros H1 H2. apply EncodeToString_inj; assumption.
Qed.

(** X14. A container made by [New] is empty: [Count] is 0 and [All] is
    true only for length 0, for every length; and where [length + 7] fits
    a [uint32], [FirstSet] finds nothing from any start and [FirstClear]
    answers every start below the length with that start. *)
Theorem X14_New_is_empty (L : Z) :
  Count (New L) = 0 /\ All (New L) = (L =? 0) /\
  (is_u32 L -> L + 7 < 2 ^ 32 -> forall start, is_u32 start ->
     FirstSet (New L) start = Some (Ok (0, false)) /\
     (start < L -> FirstClear (New L) start = Some (Ok (start, true)))).
Proof.
  assert (HC : Count (New L) = 0) by (eapply Count_zeros, New_Bytes).
  split; [exact HC|]. split; [unfold All; rewrite HC; apply Z.eqb_sym|].
  intros HL H7 start Hs. pose proof (New_I1 L (proj1 HL) H7) as HI. split.
  - destruct (FirstSet_loop_spec (New L) HI HL
      (Z.to_nat (bf_length (New L) - start)) start (proj1 Hs))
      as [(i & _ & Hi & Hset & _)|[Hr _]]; [unfold Len; lia| |exact Hr].
    assert (Hir : 0 <= i < L)
      by (change (Len (New L)) with L in Hi; unfold is_u32 in Hs; lia).
    rewrite (New_Test L i (proj1 HL) H7 Hir) in Hset. discriminate Hset.
  - intros Hlt. unfold FirstClear.
    replace (Z.to_nat (bf_length (New L) - start))
      with (S (Z.to_nat (L - start - 1))) by (simpl; lia).
    simpl. replace (start <? L) with true by (symmetry; apply Z.ltb_lt; lia).
    change (Test (mkBitfield (mkSlice (replicate (Z.to_nat (u32 (L + 7) / 8)) 0)
      (Z.to_nat (u32 (L + 7) / 8))) L) start) with (Test (New L) start).
    assert (Hsr : 0 <= start < L) by (unfold is_u32 in Hs; lia).
    rewrite (New_Test L start (proj1 HL) H7 Hsr). reflexivity.
Qed.

Lemma X14_New_is_empty_witness :
  is_u32 20 /\ 20 + 7 < 2 ^ 32 /\ is_u32 3 /\
  FirstSet (New 20) 3 = Some (Ok (0, false)) /\
  FirstClear (New 20) 3 = Some (Ok (3, true)).
Proof.
  assert (HL : is_u32 20) by (unfold is_u32; lia).
  assert (H7 : 20 + 7 < 2 ^ 32) by lia.
  assert (Hs : is_u32 3) by (unfold is_u32; lia).
  split; [exact HL|]. split; [exact H7|]. split; [exact Hs|].
  destruct (proj2 (proj2 (X14_New_is_empty 20)) HL H7 3 Hs) as [H1 H2].
  split; [exact H1|]. apply H2. lia.
Defined.

(** X15. The bit layout: in a container that satisfies I1, bit [i] lives
    in byte [i / 8] of the buffer at position [7 - i mod 8] counted from
    the least significant bit. [Test] reads that bit, [Set] writes the
    byte with that bit set and [Clear] the byte with that bit cleared, and
    no other byte of the buffer changes. *)
Theorem X15_bit_layout (bf : Bitfield) (i : Z) :
  I1 bf -> 0 <= i < Len bf ->
  exists v, Bytes bf !! Z.to_nat (i / 8) = Some v /\
    Test bf i = Ok (Z.testbit v (7 - i mod 8)) /\
    Bytes (fst (Set_ bf i))
      = <[Z.to_nat (i / 8) := Z.lor v (2 ^ (7 - i mod 8))]> (Bytes bf) /\
    Bytes (fst (Clear bf i))
      = <[Z.to_nat (i / 8) := Z.land v (255 - 2 ^ (7 - i mod 8))]> (Bytes bf).
Proof.
  intros HI Hi. destruct (I1_index bf i HI Hi) as [v Hv].
  exists v. split.
  - rewrite index_elems in Hv by (apply Z.div_pos; lia). exact Hv.
  - rewrite Test_in, Set_in, Clear_in, Hv by exact Hi. simpl.
    split; [reflexivity|]. unfold Bytes. simpl. rewrite !elems_store.
    split; [reflexivity|]. do 2 f_equal.
    pose proof (mod8_range i). unfold not8.
    apply Z.bits_inj'. intros n Hn.
    rewrite Z.lxor_spec, testbit_255, Z.pow2_bits_eqb by lia.
    assert (H255 : 255 - 2 ^ (7 - i mod 8) = Z.lxor (2 ^ (7 - i mod 8)) 255).
    { assert (Hc : 7 - i mod 8 = 0 \/ 7 - i mod 8 = 1 \/ 7 - i mod 8 = 2 \/
                   7 - i mod 8 = 3 \/ 7 - i mod 8 = 4 \/ 7 - i mod 8 = 5 \/
                   7 - i mod 8 = 6 \/ 7 - i mod 8 = 7) by lia.
      destruct Hc as [->|[->|[->|[->|[->|[->|[->| ->]]]]]]]; reflexivity. }
    rewrite H255, Z.lxor_spec, testbit_255, Z.pow2_bits_eqb by lia. reflexivity.
Qed.

Lemma X15_bit_layout_witness :
  I1 (New 20) /\ 0 <= 9 < Len (New 20) /\
  Bytes (fst (Set_ (New 20) 9)) = [0; 64; 0].
Proof.
  assert (HI : I1 (New 20)) by (split; [reflexivity|vm_compute; lia]).
  assert (Hi : 0 <= 9 < Len (New 20)) by (change (0 <= 9 < 20); lia).
  split; [exact HI|]. split; [exact Hi|].
  destruct (X15_bit_layout (New 20) 9 HI Hi) as (v & Hv & _ & HS & _).
  rewrite HS. injection Hv as <-. reflexivity.
Defined.

(** X16. In a well-formed container the scans agree with the counts:
    [All] is true exactly when [FirstClear(0)] finds nothing, and [Count]
    is 0 exactly when [FirstSet(0)] finds nothing. *)
Theorem X16_scans_agree_with_counts (bf : Bitfield) :
  wf bf ->
  (All bf = true <-> FirstClear bf 0 = Some (Ok (0, false))) /\
  (Count bf = 0 <-> FirstSet bf 0 = Some (Ok (0, false))).
Proof.
  intros Hwf. pose proof Hwf as (HI & HL & _).
  assert (H0 : Len bf - 0 <= Z.of_nat (Z.to_nat (bf_length bf - 0)))
    by (unfold Len; lia).
  pose proof (FirstClear_loop_spec bf HI HL _ 0 ltac:(lia) H0) as HFC.
  pose proof (FirstSet_loop_spec bf HI HL _ 0 ltac:(lia) H0) as HFS.
  fold (FirstClear bf 0) in HFC. fold (FirstSet bf 0) in HFS.
  rewrite (All_iff bf Hwf), (Count_zero_iff bf Hwf). split; split.
  - intros Hall. destruct HFC as [(i & _ & Hi & Hclr & _)|[Hr _]]; [|exact Hr].
    rewrite Hall in Hclr by lia. discriminate Hclr.
  - intros Hr. destruct HFC as [(i & Hr' & _)|[_ Hall]].
    + rewrite Hr in Hr'. discriminate Hr'.
    + intros i Hi. apply Hall. exact Hi.
  - intros Hnone. destruct HFS as [(i & _ & Hi & Hset & _)|[Hr _]]; [|exact Hr].
    rewrite Hnone in Hset by lia. discriminate Hset.
  - intros Hr. destruct HFS as [(i & Hr' & _)|[_ Hnone]].
    + rewrite Hr in Hr'. discriminate Hr'.
    + intros i Hi. apply Hnone. exact Hi.
Qed.

Lemma X16_scans_agree_with_counts_witness :
  wf (New 20) /\ FirstSet (New 20) 0 = Some (Ok (0, false)).
Proof.
  assert (Hwf : wf (New 20)) by (apply New_wf; lia).
  split; [exact Hwf|].
  apply (proj1 (proj2 (X16_scans_agree_with_counts (New 20) Hwf))). reflexivity.
Defined.

(** X17. [NewBytes] on a slice of exactly ceil(L/8) bytes returns a
    well-formed container of length [L] whose array holds the bytes of
    the slice as [NewBytes] left them: I1 holds and the low-order
    (8 - L mod 8) bits of its last byte are cleared (I2). *)
Theorem X17_NewBytes_exact_size (b : list Z) (L : Z) :
  is_u32 L -> Forall is_byte b -> Z.of_nat (length b) = ceil8 L ->
  exists bf, snd (NewBytes b L) = Ok bf /\ Len bf = L /\
    I1 bf /\ I2 bf /\ Forall is_byte (Bytes bf) /\
    backing (bf_b bf) = fst (NewBytes b L).
Proof.
  intros HL Hb Hlen.
  destruct (NewBytes_exact_wf b L HL Hb Hlen) as (bf & Hok & Hwf & HLen & Hback).
  exists bf. destruct Hwf as (HI & _ & Hbytes & Hpad). auto 10.
Qed.

Lemma X17_NewBytes_exact_size_witness :
  is_u32 12 /\ Forall is_byte [255; 255] /\ Z.of_nat (length [255; 255]) = ceil8 12 /\
  exists bf, snd (NewBytes [255; 255] 12) = Ok bf /\ I2 bf.
Proof.
  assert (HL : is_u32 12) by (unfold is_u32; lia).
  assert (Hb : Forall is_byte [255; 255]) by (repeat constructor; unfold is_byte; lia).
  assert (Hlen : Z.of_nat (length [255; 255]) = ceil8 12) by reflexivity.
  split; [exact HL|]. split; [exact Hb|]. split; [exact Hlen|].
  destruct (X17_NewBytes_exact_size [255; 255] 12 HL Hb Hlen)
    as (bf & Hok & _ & _ & Hpad & _).
  exists bf. split; [exact Hok|exact Hpad].
Defined.

(** X18. Calls at valid indices and [ClearAll] keep a well-formed
    container well formed: after any run of [Set], [Clear] and [SetTo]
    calls at valid indices, and after a [ClearAll], I1 and I2 hold, the
    buffer holds bytes, the length is the same, and no call of the run has
    panicked. *)
Theorem X18_wf_preserved (bf : Bitfield) (cs : list call) :
  wf bf -> Forall (fun c => 0 <= call_index c < Len bf) cs ->
  wf (fst (run bf cs)) /\ snd (run bf cs) = Ok tt /\
  Len (fst (run bf cs)) = Len bf /\
  wf (ClearAll (fst (run bf cs))).
Proof.
  intros Hwf Hcs. destruct (run_wf cs bf Hwf Hcs) as (Hwf' & Hok & HLen).
  split; [exact Hwf'|]. split; [exact Hok|]. split; [exact HLen|].
  apply wf_ClearAll, Hwf'.
Qed.

Lemma X18_wf_preserved_witness :
  wf (New 12) /\
  Forall (fun c => 0 <= call_index c < Len (New 12)) [CallSet 11; CallSetTo 3 true] /\
  I2 (fst (run (New 12) [CallSet 11; CallSetTo 3 true])).
Proof.
  assert (Hwf : wf (New 12)) by (apply New_wf; lia).
  assert (Hcs : Forall (fun c => 0 <= call_index c < Len (New 12))
                       [CallSet 11; CallSetTo 3 true])
    by (repeat constructor; change (Len (New 12)) with 12; simpl; lia).
  split; [exact Hwf|]. split; [exact Hcs|].
  apply (proj1 (X18_wf_preserved (New 12) _ Hwf Hcs)).
Defined.

(** X19. For a slice shorter than 2^32 bytes, [NewBytes] panics with "not
    enough bytes" when [len(b) < ceil(L/8)], leaving the slice as it was;
    otherwise it returns a container of length [L] whose buffer holds the
    first ceil(L/8) bytes of the slice as [NewBytes] left it. *)
Theorem X19_NewBytes_size_check (b : list Z) (L : Z) :
  is_u32 L -> Z.of_nat (length b) < 2 ^ 32 ->
  (Z.of_nat (length b) < ceil8 L -> NewBytes b L = (b, Panic NotEnoughBytes)) /\
  (ceil8 L <= Z.of_nat (length b) ->
     exists bf, snd (NewBytes b L) = Ok bf /\ Len bf = L /\
       backing (bf_b bf) = fst (NewBytes b L) /\
       Bytes bf = take (Z.to_nat (ceil8 L)) (fst (NewBytes b L)) /\
       Z.of_nat (length (Bytes bf)) = ceil8 L).
Proof. apply NewBytes_short_slice. Qed.

Lemma X19_NewBytes_size_check_witness :
  is_u32 9 /\ Z.of_nat (length [255]) < 2 ^ 32 /\ Z.of_nat (length [255]) < ceil8 9 /\
  NewBytes [255] 9 = ([255], Panic NotEnoughBytes).
Proof.
  assert (HL : is_u32 9) by (unfold is_u32; lia).
  assert (Hlen : Z.of_nat (length [255]) < 2 ^ 32) by reflexivity.
  assert (Hlt : Z.of_nat (length [255]) < ceil8 9) by reflexivity.
  split; [exact HL|]. split; [exact Hlen|]. split; [exact Hlt|].
  exact (proj1 (X19_NewBytes_size_check [255] 9 HL Hlen) Hlt).
Defined.

(** X20. Round trip where [length + 7] fits a [uint32]: after [New(L)] and
    [Set] of the indices of a list [S] of indices below [L], no call has
    panicked and [Test(i)] is true exactly for the indices of [S]. *)
Theorem X20_round_trip (L : Z) (S : list Z) :
  0 <= L -> L + 7 < 2 ^ 32 -> Forall (fun i => 0 <= i < L) S ->
  snd (run (New L) (map CallSet S)) = Ok tt /\
  forall i, 0 <= i < L ->
    exists t, Test (fst (run (New L) (map CallSet S))) i = Ok t /\
              (t = true <-> i ∈ S).
Proof. apply round_trip. Qed.

Lemma X20_round_trip_witness :
  0 <= 20 /\ 20 + 7 < 2 ^ 32 /\ Forall (fun i => 0 <= i < 20) [19; 0; 8] /\
  snd (run (New 20) (map CallSet [19; 0; 8])) = Ok tt.
Proof.
  assert (H0 : 0 <= 20) by lia.
  assert (H7 : 20 + 7 < 2 ^ 32) by lia.
  assert (HS : Forall (fun i => 0 <= i < 20) [19; 0; 8]) by (repeat constructor; lia).
  split; [exact H0|]. split; [exact H7|]. split; [exact HS|].
  exact (proj1 (X20_round_trip 20 [19; 0; 8] H0 H7 HS)).
Defined.

(** X21. Where [length + 7] fits a [uint32], [New(L)] returns a
    well-formed container of length [L] whose buffer is ceil(L/8) zero
    bytes. *)
Theorem X21_New_buffer (L : Z) :
  0 <= L -> L + 7 < 2 ^ 32 ->
  Len (New L) = L /\ Bytes (New L) = replicate (Z.to_nat (ceil8 L)) 0 /\
  I1 (New L) /\ I2 (New L).
Proof.
  intros H0 H7. pose proof (New_wf L H0 H7) as (HI & _ & _ & Hpad).
  split; [reflexivity|]. split; [|split; assumption].
  rewrite New_Bytes. unfold ceil8, u32. rewrite Z.mod_small by lia. reflexivity.
Qed.

Lemma X21_New_buffer_witness :
  0 <= 4294967288 /\ 4294967288 + 7 < 2 ^ 32 /\
  Z.of_nat (slen (bf_b (New 4294967288))) = 536870911.
Proof.
  assert (H0 : 0 <= 4294967288) by lia.
  assert (H7 : 4294967288 + 7 < 2 ^ 32) by lia.
  split; [exact H0|]. split; [exact H7|].
  rewrite (proj1 (proj1 (proj2 (proj2 (X21_New_buffer 4294967288 H0 H7))))).
  reflexivity.
Defined.

(** X23. In a container that satisfies I1, for every [start]: [FirstSet]
    returns the smallest index at or after [start] and below the length
    whose bit is set, with found = true, or not-found when there is none;
    [FirstClear] does the same for the bits that are not set; and both
    return not-found when [start] is at or past the length. *)
Theorem X23_scan_correct (bf : Bitfield) (start : Z) :
  I1 bf -> is_u32 (Len bf) -> is_u32 start ->
  scan_spec bf true start (FirstSet bf start) /\
  scan_spec bf false start (FirstClear bf start) /\
  (Len bf <= start ->
     FirstSet bf start = Some (Ok (0, false)) /\
     FirstClear bf start = Some (Ok (0, false))).
Proof.
  intros HI HL Hs. split; [|split].
  - apply FirstSet_loop_spec; try assumption; [apply Hs|]. unfold Len. lia.
  - apply FirstClear_loop_spec; try assumption; [apply Hs|]. unfold Len. lia.
  - intros Hge. split; [apply FirstSet_past_end|apply FirstClear_past_end]; exact Hge.
Qed.

Lemma X23_scan_correct_witness :
  I1 (fst (Set_ (New 20) 7)) /\ is_u32 (Len (fst (Set_ (New 20) 7))) /\ is_u32 1 /\
  scan_spec (fst (Set_ (New 20) 7)) true 1 (Some (Ok (7, true))).
Proof.
  assert (HI : I1 (fst (Set_ (New 20) 7))) by (split; [reflexivity|vm_compute; lia]).
  assert (HL : is_u32 (Len (fst (Set_ (New 20) 7)))) by (change (0 <= 20 < 2 ^ 32); lia).
  assert (H1 : is_u32 1) by (unfold is_u32; lia).
  split; [exact HI|]. split; [exact HL|]. split; [exact H1|].
  exact (proj1 (X23_scan_correct (fst (Set_ (New 20) 7)) 1 HI HL H1)).
Defined.

(** X24. For every slice [b] and length [L] not a multiple of 8 with
    [len(b) > ceil(L/8)] whose size check passes
    ([uint32(len(b)) >= ceil(L/8)], so for every such slice shorter than
    2^32 bytes): [NewBytes] returns a
    container; it has cleared the low-order (8 - L mod 8) bits of
    [b[len(b)-1]] and kept the other bits of that byte; every other byte
    of [b], so every byte in [0, ceil(L/8)), is as it was; and the
    container's buffer is the first ceil(L/8) bytes of [b], which end
    before [b[len(b)-1]]. *)
Theorem X24_NewBytes_masks_last_of_longer_slice (b : list Z) (L : Z) :
  is_u32 L -> L mod 8 <> 0 ->
  ceil8 L < Z.of_nat (length b) -> ceil8 L <= u32 (Z.of_nat (length b)) ->
  exists v v' bf,
    b !! (length b - 1)%nat = Some v /\
    NewBytes b L = (<[(length b - 1)%nat := v']> b, Ok bf) /\
    low_bits_zero (8 - L mod 8) v' /\
    (forall k, 8 - L mod 8 <= k < 8 -> Z.testbit v' k = Z.testbit v k) /\
    (forall k, (k <> length b - 1)%nat -> fst (NewBytes b L) !! k = b !! k) /\
    Bytes bf = take (Z.to_nat (ceil8 L)) b /\
    (length (Bytes bf) <= length b - 1)%nat.
Proof.
  intros HL Hnz Hlong Hge. pose proof (mod8_range L) as Hr.
  pose proof (ceil8_nonneg L ltac:(apply HL)) as Hc.
  destruct (NewBytes_partial b L HL Hnz Hge) as (v & Hv & Heq).
  cbv zeta in Heq.
  assert (HB : Bytes (mkBitfield (mkSlice
      (<[(length b - 1)%nat := Z.land v (not8 (u8 (Z.shiftr 255 (L mod 8))))]> b)
      (Z.to_nat (ceil8 L))) L) = take (Z.to_nat (ceil8 L)) b).
  { unfold Bytes, elems. simpl. apply take_insert_ge. lia. }
  exists v, (Z.land v (not8 (u8 (Z.shiftr 255 (L mod 8))))). eexists.
  split; [exact Hv|]. split; [exact Heq|]. split; [|split; [|split; [|split]]].
  - apply tail_mask_low_bits. lia.
  - intros k Hk. rewrite testbit_tail_mask by lia.
    replace (8 - L mod 8 <=? k) with true by (symmetry; apply Z.leb_le; lia).
    apply andb_true_r.
  - intros k Hk. rewrite Heq. simpl. apply list_lookup_insert_ne. lia.
  - exact HB.
  - rewrite HB, length_take. lia.
Qed.

Lemma X24_NewBytes_masks_last_of_longer_slice_witness :
  is_u32 4 /\ 4 mod 8 <> 0 /\
  ceil8 4 < Z.of_nat (length [255; 255]) /\
  ceil8 4 <= u32 (Z.of_nat (length [255; 255])) /\
  exists v v' bf,
    [255; 255] !! 1%nat = Some v /\
    NewBytes [255; 255] 4 = (<[1%nat := v']> [255; 255], Ok bf) /\
    low_bits_zero 4 v'.
Proof.
  assert (H4 : is_u32 4) by (unfold is_u32; lia).
  assert (Hm : 4 mod 8 <> 0) by discriminate.
  assert (Hlong : ceil8 4 < Z.of_nat (length [255; 255])) by reflexivity.
  assert (Hge : ceil8 4 <= u32 (Z.of_nat (length [255; 255])))
    by (apply Z.leb_le; reflexivity).
  split; [exact H4|]. split; [exact Hm|]. split; [exact Hlong|]. split; [exact Hge|].
  destruct (X24_NewBytes_masks_last_of_longer_slice [255; 255] 4 H4 Hm Hlong Hge)
    as (v & v' & bf & Hv & Heq & Hlow & _).
  exists v, v', bf. split; [exact Hv|]. split; [exact Heq|exact Hlow].
Defined.

(** ** One array, two slices *)

Section Sharing.

Lemma div8_lt_ceil8 (i L : Z) : 0 <= i < L -> 0 <= i / 8 < ceil8 L.
Proof.
  intros Hi. split; [apply Z.div_pos; lia|]. unfold ceil8.
  apply Z.div_lt_upper_bound; [lia|].
  pose proof (Z.mul_div_le (L + 7) 8). pose proof (Z.mod_pos_bound (L + 7) 8).
  pose proof (Z.div_mod (L + 7) 8). lia.
Qed.

(** What [NewBytes] returns when its size check passes. *)
Lemma NewBytes_ok_shape (b : list Z) (L : Z) :
  is_u32 L -> ceil8 L <= u32 (Z.of_nat (length b)) ->
  exists es, length es = length b /\
    NewBytes b L = (es, Ok (mkBitfield (mkSlice es (Z.to_nat (ceil8 L))) L)).
Proof.
  intros HL Hge. destruct (Z.eq_dec (L mod 8) 0) as [Hz|Hnz].
  - exists b. split; [reflexivity|]. apply NewBytes_whole; assumption.
  - destruct (NewBytes_partial b L HL Hnz Hge) as (u & _ & Heq). cbv zeta in Heq.
    eexists. split; [|exact Heq]. apply length_insert.
Qed.

(** The bit that [Test] returns is the bit of the array. *)
Lemma bit_at_of_Test (bf : Bitfield) (i : Z) (n : nat) (t : bool) :
  0 <= i < Len bf -> Test bf i = Ok t -> (slen (bf_b bf) <= n)%nat ->
  bit_at (take n (backing (bf_b bf))) (Z.to_nat i) = t.
Proof.
  intros Hi Ht Hn. rewrite Test_in in Ht by exact Hi.
  destruct (index (bf_b bf) (i / 8)) as [v|] eqn:Hv; [|discriminate Ht].
  apply index_Some in Hv as [Hr Hv].
  rewrite bit_at_Z, lookup_take_lt, Hv by lia. congruence.
Qed.

End Sharing.

(** X22. [NewBytes] does not copy: the container's slice points to the
    array of the caller's slice. When the size check passes, a [Set(i)]
    or [Clear(i)] on the container is seen as bit [i] through the
    caller's slice, a byte that the caller writes to its slice is what
    [Test] on the container reads, and a container made by [New] has
    another array. *)
Theorem X22_NewBytes_shares_array
    (h : heap) (b : ref_slice) (arr : list Z) (L i : Z) :
  h !! base b = Some arr -> (rlen b <= length arr)%nat ->
  is_u32 L -> ceil8 L <= u32 (Z.of_nat (rlen b)) -> 0 <= i < L ->
  exists h1 bf,
    HNewBytes h b L = (h1, Ok bf) /\
    base (hbf_b bf) = base b /\
    bit_at (elems (deref (fst (HSet h1 bf i)) b)) (Z.to_nat i) = true /\
    bit_at (elems (deref (fst (HClear h1 bf i)) b)) (Z.to_nat i) = false /\
    (forall w,
       HTest (<[base b := <[Z.to_nat (i / 8) := w]> (array_at h1 (base b))]> h1) bf i
       = Ok (Z.testbit w (7 - i mod 8))) /\
    base (hbf_b (snd (HNew h1 L))) <> base b.
Proof.
  intros Harr Hrl HL Hge Hi.
  pose proof (lookup_lt_Some _ _ _ Harr) as Hbase.
  assert (Hes0 : length (take (rlen b) arr) = rlen b) by (rewrite length_take; lia).
  destruct (NewBytes_ok_shape (take (rlen b) arr) L HL) as (es & Hes & Heq);
    [rewrite Hes0; exact Hge|].
  rewrite Hes0 in Hes.
  pose proof (u32_le (Z.of_nat (rlen b)) ltac:(lia)) as Hule.
  pose proof (div8_lt_ceil8 i L Hi) as Hi8.
  set (nB := Z.to_nat (ceil8 L)) in *.
  set (A := es ++ drop (rlen b) arr).
  set (h1 := <[base b := A]> h).
  set (bfH := mkHBitfield (mkRef (base b) nB) L).
  assert (HA : array_at h1 (base b) = A).
  { unfold array_at, h1. rewrite list_lookup_insert_eq by exact Hbase. reflexivity. }
  assert (HlenA : (rlen b <= length A)%nat)
    by (unfold A; rewrite length_app; lia).
  assert (HV : view h1 bfH = mkBitfield (mkSlice A nB) L).
  { unfold view, deref. simpl. rewrite HA. reflexivity. }
  assert (HI : I1 (mkBitfield (mkSlice A nB) L)).
  { split; simpl; unfold nB; lia. }
  assert (HiV : 0 <= i < Len (mkBitfield (mkSlice A nB) L)) by exact Hi.
  assert (Hread : forall bf', Len bf' = L -> slen (bf_b bf') = nB ->
    forall t, Test bf' i = Ok t ->
    bit_at (elems (deref (<[base b := backing (bf_b bf')]> h1) b)) (Z.to_nat i) = t).
  { intros bf' HLen Hs t Ht. unfold elems, deref, array_at. cbn [backing slen].
    rewrite list_lookup_insert_eq by (unfold h1; rewrite length_insert; exact Hbase).
    cbn [default]. apply bit_at_of_Test; [rewrite HLen; exact Hi|exact Ht|].
    rewrite Hs. unfold nB. lia. }
  destruct (Test_ok _ i HI HiV) as [t Ht].
  exists h1, bfH. split; [|split; [|split; [|split; [|split]]]].
  - unfold HNewBytes. unfold array_at at 1. rewrite Harr. simpl.
    fold (array_at h (base b)). unfold array_at. rewrite Harr. simpl.
    rewrite Heq. reflexivity.
  - reflexivity.
  - unfold HSet. rewrite HV.
    destruct (Set_ (mkBitfield (mkSlice A nB) L) i) as [bf' r] eqn:HS. simpl.
    assert (Hbf' : bf' = fst (Set_ (mkBitfield (mkSlice A nB) L) i))
      by (rewrite HS; reflexivity).
    apply Hread; rewrite Hbf'.
    + apply Len_Set.
    + apply slen_Set.
    + rewrite Test_Set, Ht, Z.eqb_refl, orb_true_r by exact HiV. reflexivity.
  - unfold HClear. rewrite HV.
    destruct (Clear (mkBitfield (mkSlice A nB) L) i) as [bf' r] eqn:HC. simpl.
    assert (Hbf' : bf' = fst (Clear (mkBitfield (mkSlice A nB) L) i))
      by (rewrite HC; reflexivity).
    apply Hread; rewrite Hbf'.
    + apply Len_Clear.
    + apply slen_Clear.
    + rewrite Test_Clear, Ht, Z.eqb_refl, andb_false_r by exact HiV. reflexivity.
  - intros w. rewrite HA. unfold HTest, view, deref, array_at, bfH.
    cbn [hbf_b hbf_length base rlen].
    rewrite list_lookup_insert_eq by (unfold h1; rewrite length_insert; exact Hbase).
    cbn [default]. unfold id. rewrite Test_in by exact Hi. unfold index.
    cbn [bf_b backing slen].
    replace (0 <=? i / 8) with true by (symmetry; apply Z.leb_le; lia).
    replace (i / 8 <? Z.of_nat nB) with true
      by (symmetry; apply Z.ltb_lt; unfold nB; lia).
    cbn [andb].
    rewrite list_lookup_insert_eq by (unfold nB in *; lia). reflexivity.
  - simpl. unfold h1. rewrite length_insert. lia.
Qed.

Lemma X22_NewBytes_shares_array_witness :
  [[7]; [0; 0; 9]] !! base (mkRef 1 2) = Some [0; 0; 9] /\
  le (rlen (mkRef 1 2)) (length [0; 0; 9]) /\
  is_u32 12 /\ ceil8 12 <= u32 (Z.of_nat (rlen (mkRef 1 2))) /\ 0 <= 9 < 12 /\
  exists h1 bf,
    HNewBytes [[7]; [0; 0; 9]] (mkRef 1 2) 12 = (h1, Ok bf) /\
    fst (HSet h1 bf 9) = [[7]; [0; 64; 9]] /\
    bit_at (elems (deref (fst (HSet h1 bf 9)) (mkRef 1 2))) (Z.to_nat 9) = true.
Proof.
  assert (Harr : [[7]; [0; 0; 9]] !! base (mkRef 1 2) = Some [0; 0; 9]) by reflexivity.
  assert (Hrl : le (rlen (mkRef 1 2)) (length [0; 0; 9])) by (simpl; lia).
  assert (HL : is_u32 12) by (unfold is_u32; lia).
  assert (Hge : ceil8 12 <= u32 (Z.of_nat (rlen (mkRef 1 2))))
    by (apply Z.leb_le; reflexivity).
  assert (Hi : 0 <= 9 < 12) by lia.
  split; [exact Harr|]. split; [exact Hrl|]. split; [exact HL|].
  split; [exact Hge|]. split; [exact Hi|].
  destruct (X22_NewBytes_shares_array _ _ _ 12 9 Harr Hrl HL Hge Hi)
    as (h1 & bf & Heq & _ & Hset & _).
  exists h1, bf. split; [exact Heq|]. split; [|exact Hset].
  injection Heq as <- <-. reflexivity.
Defined.
